(** * Timetable CSP: a shallow embedding of [timetable_csp.py]

    The Python class [TimetableCSP] keeps a static catalogue (days, time
    slots, subjects, teachers, classrooms, the teacher -> subjects dict and
    the subject -> periods dict) and one mutable dict [assignment] from
    (day, time_slot) to (subject, teacher, classroom).

    - The catalogue is a record; the class fixes one value of it in
      [__init__], the statements below hold for any.
    - [assignment] is a finite map threaded through the search.  The code
      iterates over it only to look for a matching item or to count items,
      so the order of iteration does not reach any result.
    - [subject_periods] is iterated in insertion order and that order
      decides the order of the candidate values, so it is the list of the
      dict's items.
    - Python integers are [Z], strings are [string].
    - [d[k]] and [del d[k]] on a missing key raise [KeyError]; a call returns
      a value or raises, in the [outcome] monad.
    - [random.shuffle] is an interface: a generator state, and a shuffle
      that returns some rearrangement of its argument.
    - The recursion of [backtrack] is bounded by a depth given as fuel; the
      interpreter's own recursion limit is not modelled. *)

From stdpp Require Import base option list gmap fin_maps strings pretty sorting.
From Stdlib Require Import ZArith Lia.

Local Open Scope string_scope.
Local Open Scope list_scope.
Local Open Scope Z_scope.

(** ** Data model *)

(** (day, time_slot) *)
Abbreviation Slot := (string * string)%type.
(** (subject, teacher, classroom) *)
Abbreviation Activity := (string * string * string)%type.
(** [self.assignment] *)
Abbreviation Assignment := (gmap Slot Activity).

(** The attributes set once in [__init__].  [subject_periods] is iterated
    with [.items()], so its insertion order is kept: it is the list of the
    dict's items.  [teacher_subjects] is only ever indexed. *)
Record TimetableCSP := {
  days : list string;
  time_slots : list string;
  subjects : list string;
  teachers : list string;
  classrooms : list string;
  teacher_subjects : gmap string (list string);
  subject_periods : list (string * Z)
}.

(** ** Outcomes of a call *)

Inductive exn := KeyError.

(** [OutOfFuel] is the recursion bound of [backtrack] running out; the two
    other outcomes are Python's. *)
Inductive outcome (A : Type) :=
  | Return (a : A)
  | Raise (e : exn)
  | OutOfFuel.
Arguments Return {A} a.
Arguments Raise {A} e.
Arguments OutOfFuel {A}.

Global Instance outcome_ret : MRet outcome := λ A a, Return a.
Global Instance outcome_bind : MBind outcome := λ A B k m,
  match m with
  | Return a => k a
  | Raise e => Raise e
  | OutOfFuel => OutOfFuel
  end.

(** A [for] loop whose body may raise: the loop state is threaded through
    the elements in order. *)
Fixpoint for_each {A S} (body : S → A → outcome S) (xs : list A) (s : S)
  : outcome S :=
  match xs with
  | [] => Return s
  | x :: xs' => s' ← body s x ; for_each body xs' s'
  end.

(** [d[k]] on the capability dict *)
Definition getitem (d : gmap string (list string)) (k : string)
  : outcome (list string) :=
  match d !! k with
  | Some v => Return v
  | None => Raise KeyError
  end.

(** ** The assignment store *)

(** [self.assignment[slot] = activity]: a dict store never fails, and
    replaces the value of a key that is present. *)
Definition bind (slot : Slot) (activity : Activity) (a : Assignment)
  : outcome Assignment :=
  Return (<[slot := activity]> a).

(** [del self.assignment[slot]]: raises [KeyError] on a missing key. *)
Definition unbind (slot : Slot) (a : Assignment) : outcome Assignment :=
  match a !! slot with
  | Some _ => Return (delete slot a)
  | None => Raise KeyError
  end.

(** ** Constraint evaluation *)

Section Evaluator.
Context (self : TimetableCSP).

Definition is_valid_assignment (a : Assignment)
    (day time_slot subject teacher classroom : string) : outcome bool :=
  caps ← getitem (teacher_subjects self) teacher ;
  if negb (bool_decide (subject ∈ caps)) then Return false
  else if existsb (λ '((d, t), (s, teach, room)),
                     bool_decide (d = day) && bool_decide (t = time_slot)
                     && bool_decide (teach = teacher)) (map_to_list a)
  then Return false
  else if existsb (λ '((d, t), (s, teach, room)),
                     bool_decide (d = day) && bool_decide (t = time_slot)
                     && bool_decide (room = classroom)) (map_to_list a)
  then Return false
  else Return true.

Definition get_subject_count (a : Assignment) (subject : string) : Z :=
  foldl (λ count '(s, teach, room),
           if bool_decide (s = subject) then count + 1 else count)
        0 (map_to_list a).*2.

Definition is_complete (a : Assignment) : bool :=
  forallb (λ '(subject, required_periods),
             negb (get_subject_count a subject <? required_periods))
          (subject_periods self).

Definition all_slots : list Slot :=
  day ← days self; time ← time_slots self; [(day, time)].

Definition get_unassigned_variables (a : Assignment) : list Slot :=
  let assigned_slots := (map_to_list a).*1 in
  filter (λ slot, slot ∉ assigned_slots) all_slots.

Definition needed_subjects (a : Assignment) : list string :=
  (filter (λ '(subject, required), get_subject_count a subject < required)
          (subject_periods self)).*1.

Definition get_domain_values (a : Assignment) (day time_slot : string)
  : outcome (list Activity) :=
  for_each (λ values subject,
    for_each (λ values teacher,
      caps ← getitem (teacher_subjects self) teacher ;
      if bool_decide (subject ∈ caps) then
        for_each (λ values classroom,
          ok ← is_valid_assignment a day time_slot subject teacher classroom ;
          Return (if ok : bool then values ++ [(subject, teacher, classroom)]
                  else values))
          (classrooms self) values
      else Return values)
      (teachers self) values)
    (needed_subjects a) [].
End Evaluator.

(** ** The catalogue of [TimetableCSP.__init__] *)

Definition reference : TimetableCSP := {|
  days := ["Monday"; "Tuesday"; "Wednesday"; "Thursday"; "Friday"];
  time_slots := ["9:00-10:00"; "10:00-11:00"; "11:00-12:00";
                 "14:00-15:00"; "15:00-16:00"];
  subjects := ["Math"; "Physics"; "Chemistry"; "English"; "History"];
  teachers := ["Teacher_A"; "Teacher_B"; "Teacher_C"; "Teacher_D"; "Teacher_E"];
  classrooms := ["Room_101"; "Room_102"; "Room_103"; "Room_104"; "Room_105"];
  teacher_subjects :=
    {[ "Teacher_A" := ["Math"; "Physics"];
       "Teacher_B" := ["Chemistry"; "Physics"];
       "Teacher_C" := ["English"; "History"];
       "Teacher_D" := ["Math"; "History"];
       "Teacher_E" := ["Chemistry"; "English"] ]};
  subject_periods :=
    [("Math", 3); ("Physics", 2); ("Chemistry", 2); ("English", 2);
     ("History", 1)]
|}.

(** ** The search *)

(** [random.shuffle]: reorders the list in place and advances the
    generator.  All that the search relies on is that the result is a
    rearrangement of the argument. *)
Class RandomSource (rng : Type) := {
  shuffle : rng → list Activity → list Activity * rng;
  shuffle_perm : ∀ g l, (shuffle g l).1 ≡ₚ l
}.

(** What a call of [backtrack] reads and writes: the assignment dict and
    the generator.  [history] is a ghost log, never read by the code: the
    dict after each store and each [del], most recent first. *)
Record State (rng : Type) := {
  assignment : Assignment;
  random : rng;
  history : list Assignment
}.
Arguments assignment {rng} _.
Arguments random {rng} _.
Arguments history {rng} _.

Section Search.
Context (self : TimetableCSP) {rng : Type} `{!RandomSource rng}.

(** line 111 *)
Definition store (slot : Slot) (value : Activity) (st : State rng)
  : outcome (State rng) :=
  a ← bind slot value (assignment st);
  Return {| assignment := a; random := random st;
            history := a :: history st |}.

(** line 118 *)
Definition remove (slot : Slot) (st : State rng) : outcome (State rng) :=
  a ← unbind slot (assignment st);
  Return {| assignment := a; random := random st;
            history := a :: history st |}.

(** The [for] loop of lines 109-120; [rec] is the recursive call. *)
Fixpoint try_values (rec : State rng → outcome (bool * State rng))
    (slot : Slot) (domain_values : list Activity) (st : State rng)
  : outcome (bool * State rng) :=
  match domain_values with
  | [] => Return (false, st)
  | value :: rest =>
      st1 ← store slot value st;
      '(found, st2) ← rec st1;
      if found : bool then Return (true, st2)
      else st3 ← remove slot st2; try_values rec slot rest st3
  end.

Fixpoint backtrack (fuel : nat) (st : State rng)
  : outcome (bool * State rng) :=
  match fuel with
  | O => OutOfFuel
  | S fuel' =>
      if is_complete self (assignment st) then Return (true, st)
      else
        match get_unassigned_variables self (assignment st) with
        | [] => Return (is_complete self (assignment st), st)
        | (day, time_slot) :: _ =>
            domain_values ←
              get_domain_values self (assignment st) day time_slot;
            let '(domain_values, g) := shuffle (random st) domain_values in
            try_values (backtrack fuel') (day, time_slot) domain_values
              {| assignment := assignment st; random := g;
                 history := history st |}
        end
  end.

Definition solve (fuel : nat) (g : rng) : outcome (bool * State rng) :=
  backtrack fuel {| assignment := ∅; random := g; history := [∅] |}.
End Search.

(** Generators.  [keep_order] leaves every list as it is (the
    deterministic variant).  [fisher_yates] is the loop of the interpreter's
    [random.shuffle]: for [i] from [len(x) - 1] down to 1, exchange [x[i]]
    with [x[j]] for a drawn [j] below [i + 1]; the generator is the list of
    the raw numbers still to be drawn. *)
Definition keep_order : RandomSource unit :=
  {| shuffle := λ g l, (l, g);
     shuffle_perm := λ g l, reflexivity l |}.

Definition randbelow (n : nat) (g : list nat) : nat * list nat :=
  match g with
  | [] => (0, [])%nat
  | r :: g' => (r mod n, g')%nat
  end.

(** [x[i], x[j] = x[j], x[i]] *)
Definition exchange (i j : nat) (x : list Activity) : list Activity :=
  match x !! i, x !! j with
  | Some xi, Some xj => <[j := xi]> (<[i := xj]> x)
  | _, _ => x
  end.

Fixpoint exchange_down (i : nat) (g : list nat) (x : list Activity)
  : list Activity * list nat :=
  match i with
  | O => (x, g)
  | S i' =>
      let '(j, g') := randbelow (S i) g in
      exchange_down i' g' (exchange i j x)
  end.

Definition random_shuffle (g : list nat) (x : list Activity)
  : list Activity * list nat :=
  exchange_down (length x - 1) g x.

Definition fisher_yates : RandomSource (list nat).
Proof.
  refine {| shuffle := random_shuffle |}.
  assert (Hex : ∀ i j x, exchange i j x ≡ₚ x).
  { intros i j x. unfold exchange.
    destruct (x !! i) as [xi|] eqn:Hi; [|done].
    destruct (x !! j) as [xj|] eqn:Hj; [|done].
    apply Permutation_inj. split; [by rewrite !length_insert|].
    exists (λ n, if decide (n = j) then i else if decide (n = i) then j else n).
    split.
    - intros n m. repeat case_decide; congruence.
    - intros n. rewrite !list_lookup_insert, !length_insert.
      apply lookup_lt_Some in Hi as Hli. apply lookup_lt_Some in Hj as Hlj.
      repeat case_decide; destruct_and?; subst; try done; try congruence;
        exfalso; naive_solver. }
  intros g x. unfold random_shuffle. generalize (length x - 1)%nat as i.
  intros i. revert g x. induction i as [|i IH]; intros g x; simpl; [done|].
  destruct (randbelow (S (S i)) g) as [j g']. by rewrite IH.
Defined.

(** What a run reports, for evaluating concrete runs: the boolean that
    [backtrack] returned, and the items of each logged dict. *)
Definition found_of {rng} (o : outcome (bool * State rng)) : option bool :=
  match o with
  | Return (found, _) => Some found
  | _ => None
  end.

Definition log_of {rng} (o : outcome (bool * State rng))
  : list (list (Slot * Activity)) :=
  match o with
  | Return (_, st) => map_to_list <$> history st
  | _ => []
  end.

(** ** Concrete instances *)

(** The catalogue with History's requirement raised to 30. *)
Definition history_30 : TimetableCSP := {|
  days := days reference;
  time_slots := time_slots reference;
  subjects := subjects reference;
  teachers := teachers reference;
  classrooms := classrooms reference;
  teacher_subjects := teacher_subjects reference;
  subject_periods :=
    [("Math", 3); ("Physics", 2); ("Chemistry", 2); ("English", 2);
     ("History", 30)]
|}.

(** One slot, one subject that needs two periods. *)
Definition one_slot : TimetableCSP := {|
  days := ["Monday"];
  time_slots := ["9:00-10:00"];
  subjects := ["Math"];
  teachers := ["Teacher_A"];
  classrooms := ["Room_101"];
  teacher_subjects := {[ "Teacher_A" := ["Math"] ]};
  subject_periods := [("Math", 2)]
|}.

(** A subject nobody teaches. *)
Definition no_latin_teacher : TimetableCSP := {|
  days := days reference;
  time_slots := time_slots reference;
  subjects := ["Math"; "Latin"];
  teachers := teachers reference;
  classrooms := classrooms reference;
  teacher_subjects := teacher_subjects reference;
  subject_periods := [("Math", 1); ("Latin", 1)]
|}.

(** A teacher of the catalogue who is missing from the capability dict. *)
Definition unknown_teacher : TimetableCSP := {|
  days := ["Monday"];
  time_slots := ["9:00-10:00"; "10:00-11:00"];
  subjects := ["Math"];
  teachers := ["Teacher_A"; "Teacher_Z"];
  classrooms := ["Room_101"];
  teacher_subjects := {[ "Teacher_A" := ["Math"] ]};
  subject_periods := [("Math", 1)]
|}.

Definition monday_9 : Slot := ("Monday", "9:00-10:00").

Definition monday_math : Assignment :=
  {[ monday_9 := ("Math", "Teacher_A", "Room_101") ]}.

(** Every requirement of the catalogue met exactly, in the first ten slots. *)
Definition ten_periods : Assignment :=
  list_to_map
    [(("Monday", "9:00-10:00"), ("Math", "Teacher_A", "Room_101"));
     (("Monday", "10:00-11:00"), ("Math", "Teacher_A", "Room_101"));
     (("Monday", "11:00-12:00"), ("Math", "Teacher_A", "Room_101"));
     (("Monday", "14:00-15:00"), ("Physics", "Teacher_A", "Room_101"));
     (("Monday", "15:00-16:00"), ("Physics", "Teacher_A", "Room_101"));
     (("Tuesday", "9:00-10:00"), ("Chemistry", "Teacher_B", "Room_101"));
     (("Tuesday", "10:00-11:00"), ("Chemistry", "Teacher_B", "Room_101"));
     (("Tuesday", "11:00-12:00"), ("English", "Teacher_C", "Room_101"));
     (("Tuesday", "14:00-15:00"), ("English", "Teacher_C", "Room_101"));
     (("Tuesday", "15:00-16:00"), ("History", "Teacher_C", "Room_101"))].

(** The same with a fourth Math period. *)
Definition four_maths : Assignment :=
  <[("Wednesday", "9:00-10:00") := ("Math", "Teacher_D", "Room_102")]> ten_periods.

(** ** Specification vocabulary *)

Definition capable (self : TimetableCSP) (teacher subject : string) : Prop :=
  ∃ caps, teacher_subjects self !! teacher = Some caps ∧ subject ∈ caps.

Definition teacher_busy (a : Assignment) (slot : Slot) (teacher : string) : Prop :=
  ∃ s room, a !! slot = Some (s, teacher, room).

Definition room_busy (a : Assignment) (slot : Slot) (classroom : string) : Prop :=
  ∃ s teach, a !! slot = Some (s, teach, classroom).

(** The bindings of [a] whose subject is [subject]. *)
Definition bound_to (a : Assignment) (subject : string) : list (Slot * Activity) :=
  filter (λ kv, kv.2.1.1 = subject) (map_to_list a).

(** Every teacher of the catalogue is a key of the capability dict, so
    indexing it never raises. *)
Definition teachers_known (self : TimetableCSP) : Prop :=
  Forall (λ t, is_Some (teacher_subjects self !! t)) (teachers self).

(** [subject_periods] is a dict (its keys are distinct) of counts (none is
    negative). *)
Definition quotas_wf (self : TimetableCSP) : Prop :=
  NoDup (subject_periods self).*1 ∧ Forall (λ sr, 0 ≤ sr.2) (subject_periods self).

(** What one pass of the three nested loops of [get_domain_values] appends. *)
Definition rooms_for (self : TimetableCSP) (a : Assignment)
    (day time_slot subject teacher : string) : list Activity :=
  mjoin ((λ classroom,
            match is_valid_assignment self a day time_slot subject teacher classroom with
            | Return true => [(subject, teacher, classroom)]
            | _ => []
            end) <$> classrooms self).

Definition teachers_for (self : TimetableCSP) (a : Assignment)
    (day time_slot subject : string) : list Activity :=
  mjoin ((λ teacher,
            match teacher_subjects self !! teacher with
            | Some caps =>
                if bool_decide (subject ∈ caps)
                then rooms_for self a day time_slot subject teacher else []
            | None => []
            end) <$> teachers self).

(** What the search offers for a slot: the subject still needs periods,
    teacher and classroom come from the catalogue, and the value passes
    [is_valid_assignment]. *)
Definition candidate (self : TimetableCSP) (a : Assignment) (slot : Slot)
    (v : Activity) : Prop :=
  (∃ required, (v.1.1, required) ∈ subject_periods self
               ∧ get_subject_count a v.1.1 < required)
  ∧ v.1.2 ∈ teachers self ∧ v.2 ∈ classrooms self
  ∧ capable self v.1.2 v.1.1
  ∧ is_valid_assignment self a slot.1 slot.2 v.1.1 v.1.2 v.2 = Return true.

(** The invariant of the assignment dict during a solve. *)
Definition placed_ok (self : TimetableCSP) (a : Assignment) : Prop :=
  ∀ slot v, a !! slot = Some v →
    slot ∈ all_slots self ∧ v.1.2 ∈ teachers self ∧ v.2 ∈ classrooms self
    ∧ capable self v.1.2 v.1.1.

Definition within_quota (self : TimetableCSP) (a : Assignment) : Prop :=
  ∀ subject required, (subject, required) ∈ subject_periods self →
    get_subject_count a subject ≤ required.

Definition consistent (self : TimetableCSP) (a : Assignment) : Prop :=
  placed_ok self a ∧ within_quota self a.

(** One write to the assignment dict that respects the store's contract: a
    binding put on a slot that was unbound, or the binding of a bound slot
    removed. *)
Definition write_ok (before after : Assignment) : Prop :=
  (∃ slot value, before !! slot = None ∧ after = <[slot := value]> before)
  ∨ (∃ slot, is_Some (before !! slot) ∧ after = delete slot before).

(** A log (most recent state first) all of whose writes respect it. *)
Fixpoint disciplined (log : list Assignment) : Prop :=
  match log with
  | after :: rest =>
      match rest with
      | before :: _ => write_ok before after ∧ disciplined rest
      | [] => True
      end
  | [] => True
  end.

(** What a returning call of [backtrack] (or of its loop) guarantees when
    entered from [st] with a consistent assignment. *)
Definition search_post (self : TimetableCSP) {rng : Type}
    (st : State rng) (r : bool * State rng) : Prop :=
  consistent self (assignment r.2)
  ∧ (∃ new, history r.2 = new ++ history st
            ∧ Forall (consistent self) new
            ∧ head (new ++ [assignment st]) = Some (assignment r.2))
  ∧ (if r.1 then is_complete self (assignment r.2) = true
     else assignment r.2 = assignment st).

(** The sum of the required periods of all subjects. *)
Definition total_required (self : TimetableCSP) : Z :=
  foldr (λ sr acc, sr.2 + acc) 0 (subject_periods self).

Definition sum_over (f : string → Z) (ss : list string) : Z :=
  foldr (λ s acc, f s + acc) 0 ss.

(** A timetable for the catalogue: bindings on slots of the catalogue, with
    teachers and classrooms of the catalogue, every teacher able to teach
    the subject, and every subject on exactly its required number of slots. *)
Definition solution (self : TimetableCSP) (a : Assignment) : Prop :=
  placed_ok self a
  ∧ ∀ subject required, (subject, required) ∈ subject_periods self →
      get_subject_count a subject = required.

Definition infeasible (self : TimetableCSP) : Prop := ∀ a, ¬ solution self a.

(** ** Reporting: [print_timetable] and the loops of [main] *)

(** What [print_timetable] writes to standard output, as one string.  Each
    [print(x)] writes [x] and a newline, [print(x, end="")] writes [x].
    Strings are sequences of bytes, the UTF-8 encoding of the program's
    strings. *)
Definition nl : string := String (Ascii.ascii_of_nat 10) "".

(** [s * n] *)
Definition times (s : string) (n : nat) : string :=
  foldr (λ x acc, x +:+ acc) "" (replicate n s).

(** [len(s)]: the number of characters of a string, that is, of the bytes
    of its encoding that do not continue a character (a continuation byte is
    one from 128 to 191). *)
Definition continues (c : Ascii.ascii) : bool :=
  let n := Ascii.nat_of_ascii c in (128 <=? n)%nat && (n <? 192)%nat.

Fixpoint char_length (s : string) : nat :=
  match s with
  | EmptyString => 0%nat
  | String c s' => ((if continues c then 0 else 1) + char_length s')%nat
  end.

(** [f"{s:<width}"]: [s] followed by spaces up to [width] characters. *)
Definition ljust (width : nat) (s : string) : string :=
  s +:+ times " " (width - char_length s).

Definition join_all (l : list string) : string :=
  foldr (λ x acc, x +:+ acc) "" l.

(** The order of [sorted] on the items of the dict: tuples compare
    component by component and strings by code point; the keys of a dict
    are distinct, so the comparison of two items is decided by their
    slots. *)
Definition slot_le (x y : Slot) : bool :=
  match String.compare x.1 y.1 with
  | Lt => true
  | Eq => String.leb x.2 y.2
  | Gt => false
  end.

Definition sorted_items (a : Assignment) : list (Slot * Activity) :=
  merge_sort (λ x y : Slot * Activity, Is_true (slot_le x.1 y.1)) (map_to_list a).

Section Reporting.
Context (self : TimetableCSP).

(** lines 148-152 *)
Definition grid_cell (a : Assignment) (time_slot day : string) : string :=
  match a !! (day, time_slot) with
  | Some (subject, teacher, classroom) => ljust 15 subject
  | None => ljust 15 "FREE"
  end.

(** lines 145-153 *)
Definition grid_row (a : Assignment) (time_slot : string) : string :=
  ljust 12 time_slot +:+ join_all (grid_cell a time_slot <$> days self) +:+ nl.

(** line 160 *)
Definition schedule_line (item : Slot * Activity) : string :=
  let '((day, time_slot), (subject, teacher, classroom)) := item in
  day +:+ " " +:+ time_slot +:+ ": " +:+ subject +:+ " - " +:+ teacher
  +:+ " - " +:+ classroom +:+ nl.

(** lines 166-169 *)
Definition count_line (a : Assignment) (entry : string * Z) : string :=
  let '(subject, required) := entry in
  let actual := get_subject_count a subject in
  let status := if bool_decide (actual = required) then "✓" else "✗" in
  subject +:+ ": " +:+ pretty actual +:+ "/" +:+ pretty required +:+ " "
  +:+ status +:+ nl.

(** lines 133-160: everything written before the count lines *)
Definition timetable_and_schedule (a : Assignment) : string :=
  (nl +:+ times "=" 80) +:+ nl
  +:+ "WEEKLY TIMETABLE" +:+ nl
  +:+ times "=" 80 +:+ nl
  +:+ ljust 12 "Time" +:+ join_all (ljust 15 <$> days self) +:+ nl
  +:+ times "-" 80 +:+ nl
  +:+ join_all (grid_row a <$> time_slots self)
  +:+ (nl +:+ times "=" 80) +:+ nl
  +:+ "DETAILED SCHEDULE" +:+ nl
  +:+ times "=" 80 +:+ nl
  +:+ join_all (schedule_line <$> sorted_items a)
  +:+ (nl +:+ times "=" 40) +:+ nl
  +:+ "SUBJECT PERIOD COUNT" +:+ nl
  +:+ times "=" 40 +:+ nl.

Definition print_timetable (a : Assignment) : string :=
  if decide (a = ∅) then "No solution found!" +:+ nl
  else timetable_and_schedule a
       +:+ join_all (count_line a <$> subject_periods self).
End Reporting.

(** [main], lines 196-200: the dict [subjects_scheduled] built from the
    items of the assignment, as a finite map. *)
Definition subject_distribution (a : Assignment) : gmap string Z :=
  foldl (λ (subjects_scheduled : gmap string Z) '(slot, (subject, teacher, room)),
           let d := match subjects_scheduled !! subject with
                    | Some _ => subjects_scheduled
                    | None => <[subject := 0]> subjects_scheduled
                    end in
           <[subject := default 0 (d !! subject) + 1]> d)
        ∅ (map_to_list a).

(** ** Vocabulary for the further properties *)

(** Every bound subject is a key of [subject_periods]. *)
Definition subjects_listed (self : TimetableCSP) (a : Assignment) : Prop :=
  ∀ slot v, a !! slot = Some v → v.1.1 ∈ (subject_periods self).*1.

(** The bound slots are the slots among the first [n] of the week. *)
Definition bound_prefix (self : TimetableCSP) (n : nat) (a : Assignment) : Prop :=
  ∀ slot, is_Some (a !! slot) ↔ slot ∈ take n (all_slots self).

(** The requirements fit: every subject that requires a period has a
    classroom to go to and a teacher of the catalogue who teaches it, and
    the required periods are no more than the distinct slots of the week. *)
Definition schedulable (self : TimetableCSP) : Prop :=
  Forall (λ sr, 0 < sr.2 →
            classrooms self ≠ []
            ∧ Exists (λ t, capable self t sr.1) (teachers self))
         (subject_periods self)
  ∧ total_required self ≤ Z.of_nat (length (remove_dups (all_slots self))).

Global Instance capable_dec self teacher subject :
  Decision (capable self teacher subject).
Proof.
  unfold capable. destruct (teacher_subjects self !! teacher) as [caps|].
  - destruct (decide (subject ∈ caps)) as [Hin|Hout].
    + left. by exists caps.
    + right. by intros (caps' & [= <-] & Hin).
  - right. by intros (caps' & ? & _).
Defined.

(** * Proofs *)

(** Closed decidable facts about the concrete catalogues are evaluated. *)
Ltac by_evaluation := apply (bool_decide_unpack _); vm_compute; exact I.

(** ** The outcome monad *)

Lemma bind_Return {A B} (m : outcome A) (k : A → outcome B) b :
  m ≫= k = Return b → ∃ a, m = Return a ∧ k a = Return b.
Proof. destruct m; simpl; [eauto | done | done]. Qed.

Lemma for_each_app {A B} (f : A → list B) (body : list B → A → outcome (list B)) xs :
  (∀ acc x, x ∈ xs → body acc x = Return (acc ++ f x)) →
  ∀ acc, for_each body xs acc = Return (acc ++ mjoin (f <$> xs)).
Proof.
  induction xs as [|x xs IH]; intros Hbody acc; simpl.
  - by rewrite app_nil_r.
  - rewrite Hbody by left. simpl. rewrite IH.
    + by rewrite app_assoc.
    + intros acc' y Hy. apply Hbody. by right.
Qed.

Lemma for_each_invariant {A S} (P : S → Prop) (body : S → A → outcome S) xs :
  (∀ s x s', x ∈ xs → P s → body s x = Return s' → P s') →
  ∀ s s', P s → for_each body xs s = Return s' → P s'.
Proof.
  induction xs as [|x xs IH]; intros Hbody s s' Hs; simpl.
  - by intros [= <-].
  - intros Hrun. apply bind_Return in Hrun as (s1 & H1 & Hrest).
    eapply IH; [|eapply Hbody; [left|done|done]|done].
    intros ? y ? Hy. apply Hbody. by right.
Qed.

Lemma head_app_cons {A} (l k : list A) x : head (l ++ x :: k) = head (l ++ [x]).
Proof. by destruct l. Qed.

Lemma head_app_snoc {A} (l k : list A) x : head ((l ++ [x]) ++ k) = head (l ++ [x]).
Proof. by destruct l. Qed.

(** ** Counting *)

Lemma count_loop subject (l : list Activity) z :
  foldl (λ count '(s, teach, room),
           if bool_decide (s = subject) then count + 1 else count) z l
  = z + Z.of_nat (length (filter (λ v : Activity, v.1.1 = subject) l)).
Proof.
  revert z. induction l as [|[[s t] r] l IH]; intros z; simpl; [lia|].
  rewrite IH, filter_cons. simpl.
  case_bool_decide; case_decide; try done; simpl; lia.
Qed.

Lemma filter_values_length subject (l : list (Slot * Activity)) :
  length (filter (λ v : Activity, v.1.1 = subject) l.*2)
  = length (filter (λ kv : Slot * Activity, kv.2.1.1 = subject) l).
Proof.
  induction l as [|[k v] l IH]; [done|].
  rewrite fmap_cons, !filter_cons. simpl.
  case_decide; simpl; by rewrite IH.
Qed.

Lemma get_subject_count_length a subject :
  get_subject_count a subject = Z.of_nat (length (bound_to a subject)).
Proof.
  unfold get_subject_count, bound_to.
  rewrite count_loop, filter_values_length. lia.
Qed.

Lemma get_subject_count_nonneg a subject : 0 ≤ get_subject_count a subject.
Proof. rewrite get_subject_count_length. lia. Qed.

Lemma get_subject_count_empty subject : get_subject_count ∅ subject = 0.
Proof. rewrite get_subject_count_length. unfold bound_to. by rewrite map_to_list_empty. Qed.

Lemma get_subject_count_insert (a : Assignment) slot (v : Activity) subject :
  a !! slot = None →
  get_subject_count (<[slot := v]> a) subject
  = get_subject_count a subject + (if bool_decide (v.1.1 = subject) then 1 else 0).
Proof.
  intros Hfree. rewrite !get_subject_count_length. unfold bound_to.
  rewrite (map_to_list_insert a slot v Hfree), filter_cons. simpl.
  case_bool_decide; case_decide; try done; simpl; lia.
Qed.

Lemma get_subject_count_pos a subject :
  0 < get_subject_count a subject →
  ∃ slot teacher room, a !! slot = Some (subject, teacher, room).
Proof.
  rewrite get_subject_count_length. unfold bound_to. intros Hpos.
  destruct (filter _ _) as [|[k [[s t] r]] l] eqn:E; [simpl in Hpos; lia|].
  assert (Hin : (k, (s, t, r)) ∈ filter (λ kv : Slot * Activity, kv.2.1.1 = subject) (map_to_list a))
    by (rewrite E; left).
  apply list_elem_of_filter in Hin as [Hs Hin]. simpl in Hs. subst s.
  apply elem_of_map_to_list in Hin. eauto.
Qed.

(** ** Legality of one candidate *)

Lemma teacher_scan a day time_slot teacher :
  existsb (λ '((d, t), (s, teach, room)),
             bool_decide (d = day) && bool_decide (t = time_slot)
             && bool_decide (teach = teacher)) (map_to_list a) = true
  ↔ teacher_busy a (day, time_slot) teacher.
Proof.
  rewrite existsb_exists. unfold teacher_busy. split.
  - intros ([[d t] [[s teach] room]] & Hin & Hc).
    rewrite !andb_true_iff, !bool_decide_eq_true in Hc.
    destruct Hc as [[-> ->] ->].
    apply list_elem_of_In, elem_of_map_to_list in Hin. eauto.
  - intros (s & room & Hb). exists ((day, time_slot), (s, teacher, room)). split.
    + by apply list_elem_of_In, elem_of_map_to_list.
    + by rewrite !bool_decide_eq_true_2.
Qed.

Lemma room_scan a day time_slot classroom :
  existsb (λ '((d, t), (s, teach, room)),
             bool_decide (d = day) && bool_decide (t = time_slot)
             && bool_decide (room = classroom)) (map_to_list a) = true
  ↔ room_busy a (day, time_slot) classroom.
Proof.
  rewrite existsb_exists. unfold room_busy. split.
  - intros ([[d t] [[s teach] room]] & Hin & Hc).
    rewrite !andb_true_iff, !bool_decide_eq_true in Hc.
    destruct Hc as [[-> ->] ->].
    apply list_elem_of_In, elem_of_map_to_list in Hin. eauto.
  - intros (s & teach & Hb). exists ((day, time_slot), (s, teach, classroom)). split.
    + by apply list_elem_of_In, elem_of_map_to_list.
    + by rewrite !bool_decide_eq_true_2.
Qed.

Lemma is_valid_assignment_known self a day time_slot subject teacher classroom caps :
  teacher_subjects self !! teacher = Some caps →
  ∃ b, is_valid_assignment self a day time_slot subject teacher classroom = Return b
     ∧ (b = false ↔ subject ∉ caps
                     ∨ teacher_busy a (day, time_slot) teacher
                     ∨ room_busy a (day, time_slot) classroom).
Proof.
  intros Hcaps. unfold is_valid_assignment, getitem. rewrite Hcaps. simpl.
  case_bool_decide as Hsub; simpl.
  - destruct (existsb _ _) eqn:Ht.
    { apply teacher_scan in Ht. exists false. split; [done|]. tauto. }
    destruct (existsb _ (map_to_list a)) eqn:Hr in |- * at 1.
    { apply room_scan in Hr. exists false. split; [done|]. tauto. }
    exists true. split; [done|]. split; [done|].
    intros [?|[Hb|Hb]]; [done| |].
    + apply teacher_scan in Hb. congruence.
    + apply room_scan in Hb. congruence.
  - exists false. split; [done|]. tauto.
Qed.

Lemma is_valid_assignment_true self a day time_slot subject teacher classroom :
  is_valid_assignment self a day time_slot subject teacher classroom = Return true
  ↔ capable self teacher subject
    ∧ ¬ teacher_busy a (day, time_slot) teacher
    ∧ ¬ room_busy a (day, time_slot) classroom.
Proof.
  unfold capable. destruct (teacher_subjects self !! teacher) as [caps|] eqn:Hcaps.
  - destruct (is_valid_assignment_known self a day time_slot subject teacher
                classroom caps Hcaps) as (b & -> & Hb).
    split.
    + intros [= ->]. split_and!.
      * exists caps. split; [done|]. destruct (decide (subject ∈ caps)); [done|].
        by destruct Hb as [_ Hb]; discriminate Hb; left.
      * intros ?. by destruct Hb as [_ Hb]; discriminate Hb; right; left.
      * intros ?. by destruct Hb as [_ Hb]; discriminate Hb; right; right.
    + intros ((caps' & [= <-] & Hs) & Ht & Hr). destruct b; [done|].
      destruct Hb as [Hb _]. destruct Hb as [?|[?|?]]; done.
  - unfold is_valid_assignment, getitem. rewrite Hcaps. simpl. split; [done|].
    by intros ((? & ? & _) & _).
Qed.

(** ** Unassigned slots *)

Lemma elem_of_assigned_slots (a : Assignment) slot :
  slot ∈ (map_to_list a).*1 ↔ is_Some (a !! slot).
Proof.
  rewrite list_elem_of_fmap. split.
  - intros ([k v] & -> & Hin). apply elem_of_map_to_list in Hin. eauto.
  - intros [v Hv]. exists (slot, v). split; [done|]. by apply elem_of_map_to_list.
Qed.

Lemma elem_of_get_unassigned_variables self a slot :
  slot ∈ get_unassigned_variables self a ↔ slot ∈ all_slots self ∧ a !! slot = None.
Proof.
  unfold get_unassigned_variables. simpl.
  rewrite list_elem_of_filter, elem_of_assigned_slots, <- eq_None_not_Some. tauto.
Qed.

Lemma first_unassigned self a slot rest :
  get_unassigned_variables self a = slot :: rest →
  slot ∈ all_slots self ∧ a !! slot = None.
Proof.
  intros E. apply elem_of_get_unassigned_variables. rewrite E. left.
Qed.

Lemma get_unassigned_variables_le self a :
  (length (get_unassigned_variables self a) ≤ length (all_slots self))%nat.
Proof. apply length_filter. Qed.

Lemma get_unassigned_variables_shrinks self a slot rest value :
  get_unassigned_variables self a = slot :: rest →
  (length (get_unassigned_variables self (<[slot := value]> a))
   < length (get_unassigned_variables self a))%nat.
Proof.
  intros E. destruct (first_unassigned _ _ _ _ E) as [_ Hfree].
  unfold get_unassigned_variables in *. simpl in *.
  revert E. generalize (all_slots self) as l. intros l E.
  assert (Hsub : ∀ x, x ∉ (map_to_list (<[slot:=value]> a)).*1 → x ∉ (map_to_list a).*1).
  { intros x. rewrite !elem_of_assigned_slots. intros Hx [v Hv]. apply Hx.
    destruct (decide (slot = x)) as [->|Hne]; [congruence|].
    rewrite lookup_insert_ne by done. eauto. }
  assert (Hslot : slot ∈ (map_to_list (<[slot:=value]> a)).*1).
  { apply elem_of_assigned_slots. rewrite lookup_insert_eq. eauto. }
  revert slot rest Hfree E Hsub Hslot.
  induction l as [|x l IH]; intros slot rest Hfree E Hsub Hslot; [done|].
  rewrite filter_cons in E. rewrite !filter_cons.
  destruct (decide (x ∉ (map_to_list a).*1)) as [Hx|Hx].
  - injection E as -> E.
    destruct (decide (slot ∉ _)) as [?|_]; [done|]. simpl.
    apply Nat.lt_succ_r. clear -Hsub.
    induction l as [|y l IH]; [done|]. rewrite !filter_cons.
    destruct (decide (y ∉ (map_to_list (<[slot:=value]> a)).*1)) as [Hy|Hy].
    + destruct (decide (y ∉ (map_to_list a).*1)) as [_|Hn]; [simpl; lia|].
      by destruct Hn; apply Hsub.
    + destruct (decide (y ∉ (map_to_list a).*1)); simpl; lia.
  - destruct (decide (x ∉ (map_to_list (<[slot:=value]> a)).*1)) as [Hx'|_].
    + by apply Hsub in Hx'.
    + by eapply IH.
Qed.

(** ** Candidate values *)

Lemma elem_of_needed_subjects self a subject :
  subject ∈ needed_subjects self a
  ↔ ∃ required, (subject, required) ∈ subject_periods self
                ∧ get_subject_count a subject < required.
Proof.
  unfold needed_subjects. rewrite list_elem_of_fmap. split.
  - intros ([s r] & -> & Hin). apply list_elem_of_filter in Hin as [Hlt Hin]. eauto.
  - intros (r & Hin & Hlt). exists (subject, r). split; [done|].
    by apply list_elem_of_filter.
Qed.

Lemma get_domain_values_pure self a day time_slot :
  teachers_known self →
  get_domain_values self a day time_slot
  = Return (mjoin (teachers_for self a day time_slot <$> needed_subjects self a)).
Proof.
  intros Hknown. unfold get_domain_values.
  rewrite (for_each_app (teachers_for self a day time_slot)); [done|].
  intros acc subject _. unfold teachers_for.
  apply (for_each_app (λ teacher, match teacher_subjects self !! teacher with
                                  | Some caps => _ | None => _ end)).
  intros acc' teacher Ht.
  unfold teachers_known in Hknown. rewrite Forall_forall in Hknown.
  destruct (Hknown _ Ht) as [caps Hcaps]. unfold getitem. rewrite Hcaps. simpl.
  case_bool_decide; [|by rewrite app_nil_r].
  unfold rooms_for. apply for_each_app. intros acc'' classroom _.
  destruct (is_valid_assignment_known self a day time_slot subject teacher
              classroom caps Hcaps) as (b & -> & _).
  simpl. destruct b; [done|by rewrite app_nil_r].
Qed.

Lemma elem_of_rooms_for self a day time_slot subject teacher v :
  v ∈ rooms_for self a day time_slot subject teacher
  ↔ ∃ classroom, v = (subject, teacher, classroom) ∧ classroom ∈ classrooms self
      ∧ is_valid_assignment self a day time_slot subject teacher classroom = Return true.
Proof.
  unfold rooms_for. rewrite list_elem_of_join. split.
  - intros (l & Hv & Hl). apply list_elem_of_fmap in Hl as (c & -> & Hc).
    destruct (is_valid_assignment _ _ _ _ _ _ _) as [[]| |] eqn:E;
      try by apply elem_of_nil in Hv.
    apply list_elem_of_singleton in Hv. eauto.
  - intros (c & -> & Hc & Hok). eexists. split; [|apply list_elem_of_fmap; eauto].
    rewrite Hok. left.
Qed.

Lemma elem_of_teachers_for self a day time_slot subject v :
  v ∈ teachers_for self a day time_slot subject
  ↔ ∃ teacher classroom, v = (subject, teacher, classroom)
      ∧ teacher ∈ teachers self ∧ classroom ∈ classrooms self
      ∧ capable self teacher subject
      ∧ is_valid_assignment self a day time_slot subject teacher classroom = Return true.
Proof.
  unfold teachers_for. rewrite list_elem_of_join. split.
  - intros (l & Hv & Hl). apply list_elem_of_fmap in Hl as (t & -> & Ht).
    destruct (teacher_subjects self !! t) as [caps|] eqn:Hcaps;
      [|by apply elem_of_nil in Hv].
    case_bool_decide; [|by apply elem_of_nil in Hv].
    apply elem_of_rooms_for in Hv as (c & -> & Hc & Hok).
    exists t, c. split_and!; try done. by exists caps.
  - intros (t & c & -> & Ht & Hc & (caps & Hcaps & Hs) & Hok).
    eexists. split; [|apply list_elem_of_fmap; eauto]. simpl.
    rewrite Hcaps, bool_decide_eq_true_2 by done.
    apply elem_of_rooms_for. eauto.
Qed.

Lemma get_domain_values_sound self a day time_slot values :
  get_domain_values self a day time_slot = Return values →
  Forall (candidate self a (day, time_slot)) values.
Proof.
  unfold get_domain_values.
  apply (for_each_invariant (Forall (candidate self a (day, time_slot)))); [|done].
  intros acc subject acc' Hsub Hacc.
  apply (for_each_invariant (Forall (candidate self a (day, time_slot)))); [|done].
  clear acc acc' Hacc. intros acc teacher acc' Ht Hacc Hrun.
  apply bind_Return in Hrun as (caps & Hcaps & Hrun).
  unfold getitem in Hcaps.
  destruct (teacher_subjects self !! teacher) as [caps'|] eqn:E; [|done].
  injection Hcaps as ->.
  case_bool_decide as Hcap; [|by injection Hrun as <-].
  revert Hrun.
  apply (for_each_invariant (Forall (candidate self a (day, time_slot)))); [|done].
  clear acc acc' Hacc. intros acc classroom acc' Hc Hacc Hrun.
  apply bind_Return in Hrun as (ok & Hok & [= <-]).
  destruct ok; [|done]. apply Forall_app. split; [done|].
  apply Forall_singleton. unfold candidate. simpl. split_and!; try done.
  - by apply elem_of_needed_subjects.
  - by exists caps.
Qed.

Lemma get_domain_values_complete self a day time_slot v :
  teachers_known self →
  candidate self a (day, time_slot) v →
  ∃ values, get_domain_values self a day time_slot = Return values ∧ v ∈ values.
Proof.
  intros Hknown (Hneed & Ht & Hc & Hcap & Hok).
  rewrite get_domain_values_pure by done. eexists. split; [done|].
  apply list_elem_of_join. eexists. split; [|apply list_elem_of_fmap; eexists; split;
    [done|by apply elem_of_needed_subjects]].
  apply elem_of_teachers_for. destruct v as [[s t] c]. by exists t, c.
Qed.

(** ** The invariant *)

Lemma consistent_empty self : quotas_wf self → consistent self ∅.
Proof.
  intros [_ Hpos]. split.
  - intros slot v. by rewrite lookup_empty.
  - intros s r Hin. rewrite get_subject_count_empty.
    rewrite Forall_forall in Hpos. apply (Hpos _ Hin).
Qed.

Lemma quota_unique self subject r1 r2 :
  quotas_wf self →
  (subject, r1) ∈ subject_periods self → (subject, r2) ∈ subject_periods self →
  r1 = r2.
Proof.
  intros [Hnd _] H1 H2.
  apply list_elem_of_lookup in H1 as [i Hi], H2 as [j Hj].
  assert (i = j) as ->; [|congruence].
  eapply NoDup_lookup; [exact Hnd| |].
  - rewrite list_lookup_fmap, Hi. done.
  - rewrite list_lookup_fmap, Hj. done.
Qed.

Lemma consistent_insert self a slot v :
  quotas_wf self →
  consistent self a →
  slot ∈ all_slots self → a !! slot = None →
  candidate self a slot v →
  consistent self (<[slot := v]> a).
Proof.
  intros Hwf [Hplaced Hquota] Hslot Hfree ((r & Hr & Hlt) & Ht & Hc & Hcap & _).
  split.
  - intros slot' v'. destruct (decide (slot = slot')) as [<-|Hne].
    + rewrite lookup_insert_eq. by intros [= <-].
    + rewrite lookup_insert_ne by done. apply Hplaced.
  - intros s r' Hin. rewrite get_subject_count_insert by done.
    case_bool_decide as Hs.
    + subst s. rewrite (quota_unique self _ r' r) by done. lia.
    + specialize (Hquota _ _ Hin). lia.
Qed.

(** ** The search: undo discipline *)

Section SearchProofs.
Context (self : TimetableCSP) {rng : Type} `{!RandomSource rng}.
Implicit Types (st : State rng) (rec : State rng → outcome (bool * State rng)).

Lemma store_Return slot value st st1 :
  store slot value st = Return st1 →
  assignment st1 = <[slot := value]> (assignment st)
  ∧ history st1 = assignment st1 :: history st.
Proof. by intros [= <-]. Qed.

Lemma remove_Return slot st st3 :
  remove slot st = Return st3 →
  assignment st3 = delete slot (assignment st)
  ∧ history st3 = assignment st3 :: history st.
Proof.
  unfold remove, unbind. destruct (assignment st !! slot); [|done].
  by intros [= <-].
Qed.

Lemma remove_bound slot st :
  is_Some (assignment st !! slot) → ∃ st3, remove slot st = Return st3.
Proof. intros [v Hv]. unfold remove, unbind. rewrite Hv. simpl. eauto. Qed.

Lemma try_values_cons rec slot v values st r :
  try_values rec slot (v :: values) st = Return r →
  ∃ st1 found st2,
    store slot v st = Return st1 ∧ rec st1 = Return (found, st2)
    ∧ (if found then Return (true, st2)
       else st3 ← remove slot st2; try_values rec slot values st3) = Return r.
Proof.
  simpl. intros Hrun.
  apply bind_Return in Hrun as ([found st2] & H2 & Hrun). eauto 6.
Qed.

Lemma try_values_frame rec slot :
  (∀ st st', rec st = Return (false, st') → assignment st' = assignment st) →
  ∀ values st st',
    assignment st !! slot = None →
    try_values rec slot values st = Return (false, st') →
    assignment st' = assignment st.
Proof.
  intros Hrec. induction values as [|v values IH]; intros st st' Hfree; simpl.
  - by intros [= <-].
  - intros Hrun. apply try_values_cons in Hrun
      as (st1 & found & st2 & H1 & H2 & Hrun).
    destruct found; [done|].
    apply store_Return in H1 as [H1 _].
    apply Hrec in H2. rewrite H1 in H2.
    apply bind_Return in Hrun as (st3 & H3 & Hrun).
    apply remove_Return in H3 as [H3 _].
    rewrite H2, delete_insert_id in H3 by done.
    rewrite <- H3. apply IH; [by rewrite H3|done].
Qed.

Lemma backtrack_frame fuel :
  ∀ st st', backtrack self fuel st = Return (false, st') →
            assignment st' = assignment st.
Proof.
  induction fuel as [|fuel IH]; intros st st'; simpl; [done|].
  destruct (is_complete self (assignment st)) eqn:Hc; [done|].
  destruct (get_unassigned_variables self (assignment st)) as [|[day ts] rest] eqn:Hu.
  { by intros [= <-]. }
  intros Hrun. apply bind_Return in Hrun as (values & _ & Hrun).
  destruct (shuffle (random st) values) as [values' g].
  apply (try_values_frame _ _ IH) in Hrun; [done|].
  simpl. by destruct (first_unassigned _ _ _ _ Hu).
Qed.

(** ** The search: the invariant holds after every mutation *)

Lemma try_values_post rec slot :
  (∀ st r, consistent self (assignment st) → rec st = Return r →
           search_post self st r) →
  ∀ values st r,
    assignment st !! slot = None →
    consistent self (assignment st) →
    Forall (λ v, consistent self (<[slot := v]> (assignment st))) values →
    try_values rec slot values st = Return r →
    search_post self st r.
Proof.
  intros Hrec. induction values as [|v values IH]; intros st r Hfree Hok Hvals.
  - simpl. intros [= <-]. split_and!; [done| |done]. by exists [].
  - intros Hrun. apply try_values_cons in Hrun
      as (st1 & found & st2 & H1 & H2 & Hrun).
    apply store_Return in H1 as [H1 Hh1].
    apply Forall_cons in Hvals as [Hv Hvals].
    apply Hrec in H2 as (Hok2 & (new & Hh2 & Hnew & Hhd) & Hres); [|by rewrite H1].
    simpl in *. destruct found.
    + injection Hrun as <-. split_and!; [done| |done]. simpl.
      exists (new ++ [assignment st1]). rewrite Hh2, Hh1, <- app_assoc.
      split_and!; [done| |by rewrite head_app_snoc].
      apply Forall_app. split; [done|]. apply Forall_singleton. by rewrite H1.
    + apply bind_Return in Hrun as (st3 & H3 & Hrun).
      apply remove_Return in H3 as [H3 Hh3].
      rewrite Hres, H1, delete_insert_id in H3 by done.
      apply IH in Hrun as (Hok' & (new' & Hh' & Hnew' & Hhd') & Hres');
        [|by rewrite H3..].
      split_and!; [done| |].
      * exists (new' ++ assignment st3 :: new ++ [assignment st1]).
        rewrite Hh', Hh3, Hh2, Hh1. split_and!.
        { by rewrite <- !app_assoc, <- app_comm_cons, <- app_assoc. }
        { apply Forall_app. split; [done|]. apply Forall_cons.
          split; [by rewrite H3|].
          apply Forall_app. split; [done|]. apply Forall_singleton. by rewrite H1. }
        { rewrite <- Hhd', <- app_assoc, <- app_comm_cons. apply head_app_cons. }
      * destruct r as [[] st']; simpl in *; [done|]. by rewrite Hres', H3.
Qed.

Lemma backtrack_post fuel :
  quotas_wf self →
  ∀ st r, consistent self (assignment st) → backtrack self fuel st = Return r →
          search_post self st r.
Proof.
  intros Hwf. induction fuel as [|fuel IH]; intros st r Hok; simpl; [done|].
  destruct (is_complete self (assignment st)) eqn:Hc.
  { intros [= <-]. split_and!; [done| |done]. by exists []. }
  destruct (get_unassigned_variables self (assignment st)) as [|[day ts] rest] eqn:Hu.
  { intros [= <-]. split_and!; [done| |done]. by exists []. }
  intros Hrun. apply bind_Return in Hrun as (values & Hvals & Hrun).
  pose proof (shuffle_perm (random st) values) as Hperm.
  destruct (shuffle (random st) values) as [values' g]. simpl in Hperm.
  destruct (first_unassigned _ _ _ _ Hu) as [Hslot Hfree].
  apply get_domain_values_sound in Hvals.
  apply (try_values_post _ _ IH) in Hrun; [done|done|done|]. simpl.
  rewrite Forall_forall in Hvals. apply Forall_forall. intros v Hv.
  apply consistent_insert; try done. apply Hvals. by rewrite <- Hperm.
Qed.

(** ** The search: it returns *)

Lemma try_values_returns rec slot a :
  a !! slot = None →
  (∀ st1 v, assignment st1 = <[slot := v]> a →
     ∃ found st2, rec st1 = Return (found, st2)
                  ∧ (found = false → assignment st2 = assignment st1)) →
  ∀ values st, assignment st = a → ∃ r, try_values rec slot values st = Return r.
Proof.
  intros Hfree Hrec. induction values as [|v values IH]; intros st Ha; simpl.
  - eauto.
  - edestruct (Hrec {| assignment := <[slot:=v]> (assignment st);
                       random := random st;
                       history := <[slot:=v]> (assignment st) :: history st |} v)
      as (found & st2 & -> & Hres); [by rewrite Ha|]. simpl.
    destruct found; [eauto|]. simpl in Hres. specialize (Hres eq_refl).
    unfold remove, unbind. rewrite Hres, lookup_insert_eq. simpl.
    apply IH. simpl. by rewrite Ha, delete_insert_id.
Qed.

Lemma backtrack_returns fuel :
  teachers_known self →
  ∀ st, (length (get_unassigned_variables self (assignment st)) < fuel)%nat →
        ∃ found st', backtrack self fuel st = Return (found, st').
Proof.
  intros Hknown. induction fuel as [|fuel IH]; intros st Hfuel; [lia|]. simpl.
  destruct (is_complete self (assignment st)) eqn:Hc; [eauto|].
  destruct (get_unassigned_variables self (assignment st)) as [|[day ts] rest] eqn:Hu;
    [eauto|].
  rewrite get_domain_values_pure by done. simpl.
  destruct (shuffle (random st) _) as [values' g].
  destruct (first_unassigned _ _ _ _ Hu) as [Hslot Hfree].
  assert (Hrec : ∀ st1 v, assignment st1 = <[(day, ts) := v]> (assignment st) →
            ∃ found st2, backtrack self fuel st1 = Return (found, st2)
                         ∧ (found = false → assignment st2 = assignment st1)).
  { intros st1 v H1. destruct (IH st1) as (found & st2 & Hrun).
    - rewrite H1.
      pose proof (get_unassigned_variables_shrinks self _ _ _ v Hu) as Hlt.
      rewrite Hu in Hlt. simpl in *. lia.
    - exists found, st2. split; [done|]. intros ->. by eapply backtrack_frame. }
  destruct (try_values_returns _ _ _ Hfree Hrec values'
              {| assignment := assignment st; random := g; history := history st |}
              eq_refl) as [[found st'] Hr].
  eauto.
Qed.

(** More fuel does not change a result. *)
Lemma try_values_mono rec rec' slot :
  (∀ st r, rec st = Return r → rec' st = Return r) →
  ∀ values st r, try_values rec slot values st = Return r →
                 try_values rec' slot values st = Return r.
Proof.
  intros Hrec. induction values as [|v values IH]; intros st r; [done|].
  intros Hrun. apply try_values_cons in Hrun
    as (st1 & found & st2 & H1 & H2 & Hrun).
  simpl. injection H1 as <-. rewrite (Hrec _ _ H2). simpl.
  destruct found; [done|].
  apply bind_Return in Hrun as (st3 & -> & Hrun). simpl. by apply IH.
Qed.

Lemma backtrack_mono fuel fuel' st r :
  (fuel ≤ fuel')%nat →
  backtrack self fuel st = Return r → backtrack self fuel' st = Return r.
Proof.
  revert fuel' st r. induction fuel as [|fuel IH]; intros fuel' st r Hle; [done|].
  destruct fuel' as [|fuel']; [lia|]. simpl.
  destruct (is_complete self (assignment st)); [done|].
  destruct (get_unassigned_variables self (assignment st)) as [|[day ts] rest]; [done|].
  intros Hrun. apply bind_Return in Hrun as (values & -> & Hrun). simpl.
  destruct (shuffle (random st) values) as [values' g].
  eapply try_values_mono; [|done]. intros ??. apply IH. lia.
Qed.
End SearchProofs.

(** ** The search: every write respects the store's contract *)

Section SearchWrites.
Context (self : TimetableCSP) {rng : Type} `{!RandomSource rng}.
Implicit Types (st : State rng) (rec : State rng → outcome (bool * State rng)).

Lemma try_values_no_raise rec slot :
  (∀ st e, rec st ≠ Raise e) →
  (∀ st st', rec st = Return (false, st') → assignment st' = assignment st) →
  ∀ values st e, try_values rec slot values st ≠ Raise e.
Proof.
  intros Hrec Hframe. induction values as [|v values IH]; intros st e; [done|].
  simpl. destruct (rec _) as [[found st2]| |] eqn:E; simpl; [|by eapply Hrec in E|done].
  destruct found; [done|].
  apply Hframe in E. simpl in E. unfold remove, unbind.
  rewrite E, lookup_insert_eq. simpl. apply IH.
Qed.

Lemma backtrack_no_raise fuel :
  teachers_known self → ∀ st e, backtrack self fuel st ≠ Raise e.
Proof.
  intros Hknown. induction fuel as [|fuel IH]; intros st e; [done|]. simpl.
  destruct (is_complete self (assignment st)); [done|].
  destruct (get_unassigned_variables self (assignment st)) as [|[day ts] rest]; [done|].
  rewrite get_domain_values_pure by done. simpl.
  destruct (shuffle (random st) _) as [values' g].
  apply try_values_no_raise; [done|]. apply backtrack_frame.
Qed.

Lemma disciplined_cons (after before : Assignment) log :
  write_ok before after → disciplined (before :: log) →
  disciplined (after :: before :: log).
Proof. intros Hw Hlog. by split. Qed.

Lemma try_values_disciplined rec slot :
  (∀ st st', rec st = Return (false, st') → assignment st' = assignment st) →
  (∀ st r, head (history st) = Some (assignment st) → disciplined (history st) →
           rec st = Return r →
           head (history r.2) = Some (assignment r.2) ∧ disciplined (history r.2)) →
  ∀ values st r,
    assignment st !! slot = None →
    head (history st) = Some (assignment st) → disciplined (history st) →
    try_values rec slot values st = Return r →
    head (history r.2) = Some (assignment r.2) ∧ disciplined (history r.2).
Proof.
  intros Hframe Hrec.
  induction values as [|v values IH]; intros st r Hfree Hhd Hlog.
  - simpl. by intros [= <-].
  - intros Hrun. apply try_values_cons in Hrun
      as (st1 & found & st2 & H1 & H2 & Hrun).
    apply store_Return in H1 as [H1 Hh1].
    destruct (history st) as [|a0 log0] eqn:Hh0; [done|].
    injection Hhd as ->.
    assert (Hlog1 : disciplined (history st1)).
    { rewrite Hh1. apply disciplined_cons; [|done].
      left. exists slot, v. by rewrite H1. }
    destruct (Hrec st1 _ ltac:(by rewrite Hh1) Hlog1 H2) as [Hhd2 Hlog2].
    simpl in *. destruct found; [by injection Hrun as <-|].
    apply Hframe in H2.
    apply bind_Return in Hrun as (st3 & H3 & Hrun).
    apply remove_Return in H3 as [H3 Hh3].
    destruct (history st2) as [|a2 log2] eqn:Hh2; [done|].
    injection Hhd2 as ->.
    assert (Hlog3 : disciplined (history st3)).
    { rewrite Hh3. apply disciplined_cons; [|done].
      right. exists slot. rewrite H3, H2, H1, lookup_insert_eq. eauto. }
    rewrite H2, H1, delete_insert_id in H3 by done.
    apply IH in Hrun; [done|by rewrite H3|by rewrite Hh3|done].
Qed.

Lemma backtrack_disciplined fuel :
  ∀ st r, head (history st) = Some (assignment st) → disciplined (history st) →
          backtrack self fuel st = Return r →
          head (history r.2) = Some (assignment r.2) ∧ disciplined (history r.2).
Proof.
  induction fuel as [|fuel IH]; intros st r Hhd Hlog; simpl; [done|].
  destruct (is_complete self (assignment st)) eqn:Hc; [by intros [= <-]|].
  destruct (get_unassigned_variables self (assignment st)) as [|[day ts] rest] eqn:Hu;
    [by intros [= <-]|].
  intros Hrun. apply bind_Return in Hrun as (values & _ & Hrun).
  destruct (shuffle (random st) values) as [values' g].
  destruct (first_unassigned _ _ _ _ Hu) as [_ Hfree].
  by eapply (try_values_disciplined _ _ (backtrack_frame self fuel) IH) in Hrun.
Qed.
End SearchWrites.

(** ** Completeness and feasibility *)

Lemma is_complete_true self a :
  is_complete self a = true
  ↔ ∀ subject required, (subject, required) ∈ subject_periods self →
      required ≤ get_subject_count a subject.
Proof.
  unfold is_complete. rewrite forallb_forall. split.
  - intros H s r Hin. apply list_elem_of_In, H in Hin.
    by apply negb_true_iff, Z.ltb_ge in Hin.
  - intros H [s r] Hin. apply negb_true_iff, Z.ltb_ge, H. by apply list_elem_of_In.
Qed.

Lemma within_quota_Forall self a :
  within_quota self a
  ↔ Forall (λ sr, get_subject_count a sr.1 ≤ sr.2) (subject_periods self).
Proof.
  unfold within_quota. rewrite Forall_forall. split.
  - intros H [s r] Hin. by apply H.
  - intros H s r Hin. apply (H _ Hin).
Qed.

Lemma consistent_complete_solution self a :
  consistent self a → is_complete self a = true → solution self a.
Proof.
  intros [Hplaced Hq] Hc. split; [done|]. intros s r Hin.
  rewrite is_complete_true in Hc. specialize (Hc _ _ Hin). specialize (Hq _ _ Hin). lia.
Qed.

Lemma sum_over_add f g ss :
  sum_over (λ s, f s + g s) ss = sum_over f ss + sum_over g ss.
Proof. induction ss as [|s ss IH]; simpl; lia. Qed.

Lemma sum_over_indicator (x : string) ss :
  NoDup ss → sum_over (λ s, if bool_decide (x = s) then 1 else 0) ss ≤ 1.
Proof.
  induction 1 as [|s ss Hs _ IH]; simpl; [lia|].
  case_bool_decide as Hx; [|lia]. subst s.
  assert (sum_over (λ s, if bool_decide (x = s) then 1 else 0) ss = 0) as ->; [|lia].
  clear IH. induction ss as [|s ss IH]; [done|]. simpl.
  apply not_elem_of_cons in Hs as [Hne Hs]. rewrite bool_decide_eq_false_2 by done.
  by rewrite IH.
Qed.

Lemma sum_over_counts (l : list (Slot * Activity)) ss :
  NoDup ss →
  sum_over (λ s, Z.of_nat (length (filter (λ kv : Slot * Activity, kv.2.1.1 = s) l))) ss
  ≤ Z.of_nat (length l).
Proof.
  intros Hnd. induction l as [|kv l IH].
  - simpl. induction ss as [|s ss IHs]; simpl; [lia|].
    apply NoDup_cons in Hnd as [_ Hnd]. specialize (IHs Hnd). lia.
  - pose proof (sum_over_indicator kv.2.1.1 ss Hnd) as Hone.
    assert (sum_over (λ s, Z.of_nat (length (filter
              (λ kv' : Slot * Activity, kv'.2.1.1 = s) (kv :: l)))) ss
            = sum_over (λ s, if bool_decide (kv.2.1.1 = s) then 1 else 0) ss
              + sum_over (λ s, Z.of_nat (length (filter
                  (λ kv' : Slot * Activity, kv'.2.1.1 = s) l))) ss) as ->.
    { rewrite <- sum_over_add. clear. induction ss as [|s ss IHs]; simpl; [lia|].
      rewrite IHs, filter_cons.
      case_decide; case_bool_decide; try done; simpl length; lia. }
    simpl length. lia.
Qed.

Lemma required_le_counts (f : string → Z) (l : list (string * Z)) :
  (∀ s r, (s, r) ∈ l → r ≤ f s) →
  foldr (λ sr acc, sr.2 + acc) 0 l ≤ sum_over f l.*1.
Proof.
  unfold sum_over. induction l as [|[s r] l IH]; intros H; csimpl; [lia|].
  pose proof (H s r (list_elem_of_here _ _)) as Hr.
  assert (foldr (λ sr acc, sr.2 + acc) 0 l ≤ foldr (λ s acc, f s + acc) 0 l.*1);
    [|lia].
  apply IH. intros ???. apply H. by right.
Qed.

Lemma placed_size self a :
  placed_ok self a → (size a ≤ length (all_slots self))%nat.
Proof.
  intros Hplaced. rewrite <- length_map_to_list, <- (length_fmap fst).
  apply submseteq_length, NoDup_submseteq; [apply NoDup_fst_map_to_list|].
  intros slot Hin. apply elem_of_assigned_slots in Hin as [v Hv].
  by destruct (Hplaced _ _ Hv).
Qed.

Lemma over_capacity_infeasible self :
  NoDup (subject_periods self).*1 →
  Z.of_nat (length (all_slots self)) < total_required self →
  infeasible self.
Proof.
  intros Hnd Hover a [Hplaced Hexact].
  pose proof (placed_size _ _ Hplaced) as Hsize.
  pose proof (required_le_counts (get_subject_count a) (subject_periods self)) as Hle.
  pose proof (sum_over_counts (map_to_list a) _ Hnd) as Hsum.
  unfold total_required in Hover.
  assert (sum_over (get_subject_count a) (subject_periods self).*1
          ≤ Z.of_nat (length (map_to_list a))).
  { etrans; [|exact Hsum]. clear. induction (_.*1) as [|s ss IH]; simpl; [lia|].
    rewrite get_subject_count_length. unfold bound_to. lia. }
  rewrite <- length_map_to_list in Hsize.
  assert (foldr (λ sr acc, sr.2 + acc) 0 (subject_periods self)
          ≤ sum_over (get_subject_count a) (subject_periods self).*1).
  { apply Hle. intros s r Hin. rewrite (Hexact _ _ Hin). lia. }
  lia.
Qed.

Lemma nobody_capable_infeasible self subject required :
  (subject, required) ∈ subject_periods self → 0 < required →
  (∀ teacher, teacher ∈ teachers self → ¬ capable self teacher subject) →
  infeasible self.
Proof.
  intros Hin Hpos Hnone a [Hplaced Hexact].
  destruct (get_subject_count_pos a subject) as (slot & t & room & Hb).
  { rewrite (Hexact _ _ Hin). lia. }
  destruct (Hplaced _ _ Hb) as (_ & Ht & _ & Hcap). by apply (Hnone t).
Qed.


(** ** The concrete catalogues are well formed *)

Lemma reference_quotas_wf : quotas_wf reference.
Proof. split; by_evaluation. Qed.

Lemma reference_teachers_known : teachers_known reference.
Proof. unfold teachers_known. by_evaluation. Qed.

Lemma history_30_quotas_wf : quotas_wf history_30.
Proof. split; by_evaluation. Qed.

Lemma no_latin_teacher_quotas_wf : quotas_wf no_latin_teacher.
Proof. split; by_evaluation. Qed.

(** * The claims *)

(** ** The evaluator *)

(** C6: for a teacher that is a key of the capability dict,
    [is_valid_assignment] returns a boolean (it raises nothing and, being a
    function of the catalogue and the assignment only, changes nothing), and
    that boolean is [False] exactly when (a) the subject is not among the
    teacher's subjects, or (b) a binding at the same slot has the same
    teacher, or (c) a binding at the same slot has the same classroom. *)
Theorem is_valid_assignment_false_iff
    self a day time_slot subject teacher classroom caps :
  teacher_subjects self !! teacher = Some caps →
  ∃ b, is_valid_assignment self a day time_slot subject teacher classroom = Return b
     ∧ (b = false ↔ subject ∉ caps
                     ∨ (∃ s room, a !! (day, time_slot) = Some (s, teacher, room))
                     ∨ (∃ s teach, a !! (day, time_slot) = Some (s, teach, classroom))).
Proof. apply is_valid_assignment_known. Qed.

Lemma is_valid_assignment_false_iff_witness :
  ∃ b, is_valid_assignment reference monday_math "Monday" "9:00-10:00"
         "Physics" "Teacher_A" "Room_102" = Return b
     ∧ (b = false ↔ "Physics" ∉ ["Math"; "Physics"]
                     ∨ (∃ s room, monday_math !! ("Monday", "9:00-10:00")
                                  = Some (s, "Teacher_A", room))
                     ∨ (∃ s teach, monday_math !! ("Monday", "9:00-10:00")
                                   = Some (s, teach, "Room_102"))).
Proof.
  apply (is_valid_assignment_false_iff reference monday_math "Monday" "9:00-10:00"
           "Physics" "Teacher_A" "Room_102" ["Math"; "Physics"]).
  reflexivity.
Defined.

(** C5: when every teacher of the catalogue is a key of the capability
    dict, [get_domain_values] returns a list that contains exactly the
    triples (subject, teacher, classroom) over the catalogue such that the
    subject's count is below its requirement, the teacher can teach the
    subject, and [is_valid_assignment] accepts the triple at the slot. *)
Theorem get_domain_values_exact self a day time_slot :
  teachers_known self →
  ∃ values, get_domain_values self a day time_slot = Return values ∧
    ∀ subject teacher classroom,
      (subject, teacher, classroom) ∈ values
      ↔ (∃ required, (subject, required) ∈ subject_periods self
                     ∧ get_subject_count a subject < required)
        ∧ teacher ∈ teachers self ∧ classroom ∈ classrooms self
        ∧ capable self teacher subject
        ∧ is_valid_assignment self a day time_slot subject teacher classroom
          = Return true.
Proof.
  intros Hknown.
  destruct (get_domain_values self a day time_slot) as [values| |] eqn:E;
    try by rewrite get_domain_values_pure in E.
  exists values. split; [done|]. intros subject teacher classroom. split.
  - intros Hin. apply get_domain_values_sound in E.
    rewrite Forall_forall in E. apply (E _ Hin).
  - intros Hcand.
    destruct (get_domain_values_complete self a day time_slot
                (subject, teacher, classroom) Hknown Hcand) as (values' & E' & Hin).
    congruence.
Qed.

Lemma get_domain_values_exact_witness :
  ∃ values, get_domain_values reference monday_math "Monday" "10:00-11:00"
            = Return values ∧
    ∀ subject teacher classroom,
      (subject, teacher, classroom) ∈ values
      ↔ (∃ required, (subject, required) ∈ subject_periods reference
                     ∧ get_subject_count monday_math subject < required)
        ∧ teacher ∈ teachers reference ∧ classroom ∈ classrooms reference
        ∧ capable reference teacher subject
        ∧ is_valid_assignment reference monday_math "Monday" "10:00-11:00"
            subject teacher classroom = Return true.
Proof.
  apply (get_domain_values_exact reference monday_math "Monday" "10:00-11:00").
  unfold teachers_known. by_evaluation.
Defined.

(** C10: [is_valid_assignment] does not ask for the slot to be free.  At a
    slot that already holds a binding, a value whose teacher can teach its
    subject and whose teacher and classroom both differ from the binding's
    is accepted; the catalogue of [__init__] has such a case.  That a slot
    receives at most one value comes from [backtrack] taking its slot from
    [get_unassigned_variables], whose elements are all unbound. *)
Theorem is_valid_assignment_on_bound_slot :
  (∀ self a day time_slot subject teacher classroom s0 t0 r0,
     a !! (day, time_slot) = Some (s0, t0, r0) →
     capable self teacher subject → teacher ≠ t0 → classroom ≠ r0 →
     is_valid_assignment self a day time_slot subject teacher classroom
     = Return true)
  ∧ (is_Some (monday_math !! ("Monday", "9:00-10:00"))
     ∧ is_valid_assignment reference monday_math "Monday" "9:00-10:00"
         "Physics" "Teacher_B" "Room_102" = Return true
     ∧ ∃ values, get_domain_values reference monday_math "Monday" "9:00-10:00"
                 = Return values
                 ∧ ("Physics", "Teacher_B", "Room_102") ∈ values)
  ∧ (∀ self a slot, slot ∈ get_unassigned_variables self a → a !! slot = None).
Proof.
  split_and!.
  - intros self a day ts subject teacher classroom s0 t0 r0 Hb Hcap Ht Hr.
    apply is_valid_assignment_true. split_and!; [done| |].
    + intros (s & room & Hb'). congruence.
    + intros (s & teach & Hb'). congruence.
  - exists ("Math", "Teacher_A", "Room_101"). reflexivity.
  - vm_compute. reflexivity.
  - apply get_domain_values_complete; [apply reference_teachers_known|].
    unfold candidate. simpl. split_and!.
    + exists 2. split; [by_evaluation|]. vm_compute. reflexivity.
    + by_evaluation.
    + by_evaluation.
    + exists ["Chemistry"; "Physics"]. split; [reflexivity|by_evaluation].
    + vm_compute. reflexivity.
  - intros self a slot Hin. by apply elem_of_get_unassigned_variables in Hin as [_ ?].
Qed.

Lemma is_valid_assignment_on_bound_slot_witness :
  is_valid_assignment reference monday_math "Monday" "9:00-10:00"
    "English" "Teacher_C" "Room_103" = Return true.
Proof.
  apply (proj1 is_valid_assignment_on_bound_slot reference monday_math
           "Monday" "9:00-10:00" "English" "Teacher_C" "Room_103"
           "Math" "Teacher_A" "Room_101").
  - reflexivity.
  - exists ["English"; "History"]. split; [reflexivity|].
    by_evaluation.
  - discriminate.
  - discriminate.
Defined.

(** ** The assignment store *)

(** C9, as the code has it: the dict store of line 111 never fails and,
    on a slot that is already bound, replaces the binding; [del] (line 118)
    raises [KeyError] exactly on an unbound slot and otherwise removes the
    binding.  The search itself never breaks the contract: the slot it binds
    is the head of [get_unassigned_variables], which is unbound; in every
    run of [backtrack], and so of [solve], each write to the dict is a store
    on a slot that was unbound just before or a [del] of a slot that was
    bound just before (a store on a bound slot would leave the number of
    bindings unchanged, which neither kind of write does); and with every
    teacher of the catalogue a key of the capability dict no call raises,
    so no [del] ever misses its key. *)
Theorem bind_unbind_contract :
  (∀ slot value a, bind slot value a = Return (<[slot := value]> a))
  ∧ (∀ slot value old a, a !! slot = Some old →
       ∃ a', bind slot value a = Return a' ∧ a' !! slot = Some value)
  ∧ (∀ slot a, unbind slot a = Raise KeyError ↔ a !! slot = None)
  ∧ (∀ slot a, is_Some (a !! slot) → unbind slot a = Return (delete slot a))
  ∧ (∀ self a slot rest, get_unassigned_variables self a = slot :: rest →
       a !! slot = None)
  ∧ (∀ self rng (R : RandomSource rng) fuel (st : State rng) r,
       head (history st) = Some (assignment st) → disciplined (history st) →
       backtrack self fuel st = Return r →
       head (history r.2) = Some (assignment r.2) ∧ disciplined (history r.2))
  ∧ (∀ self rng (R : RandomSource rng) fuel (g : rng) found (st : State rng),
       solve self fuel g = Return (found, st) → disciplined (history st))
  ∧ (∀ self rng (R : RandomSource rng) fuel (st : State rng) e,
       teachers_known self → backtrack self fuel st ≠ Raise e).
Proof.
  split_and!.
  - done.
  - intros slot value old a _. eexists. split; [done|]. apply lookup_insert_eq.
  - intros slot a. unfold unbind. destruct (a !! slot); split; done.
  - intros slot a [v Hv]. unfold unbind. by rewrite Hv.
  - intros self a slot rest Hu. by destruct (first_unassigned _ _ _ _ Hu).
  - intros self rng R fuel st r. apply backtrack_disciplined.
  - intros self rng R fuel g found st Hrun.
    by apply backtrack_disciplined in Hrun as [_ Hlog].
  - intros self rng R fuel st e Hknown. by apply backtrack_no_raise.
Qed.

Lemma bind_unbind_contract_witness :
  (∃ a', bind monday_9 ("Physics", "Teacher_B", "Room_102") monday_math = Return a'
         ∧ a' !! monday_9 = Some ("Physics", "Teacher_B", "Room_102"))
  ∧ unbind monday_9 monday_math = Return (delete monday_9 monday_math)
  ∧ (∃ st, @solve one_slot _ keep_order 2 () = Return (false, st)
           ∧ length (history st) = 3%nat
           ∧ disciplined (history st))
  ∧ (∀ st e, @backtrack reference _ fisher_yates 26 st ≠ Raise e).
Proof.
  destruct bind_unbind_contract
    as (_ & Hbind & _ & Hunbind & _ & _ & Hsolve & Hraise).
  split_and!.
  - apply (Hbind monday_9 _ ("Math", "Teacher_A", "Room_101") monday_math).
    reflexivity.
  - apply Hunbind. exists ("Math", "Teacher_A", "Room_101"). reflexivity.
  - assert (Hrun : found_of (@solve one_slot _ keep_order 2 ()) = Some false)
      by (vm_compute; reflexivity).
    assert (Hlen : length (log_of (@solve one_slot _ keep_order 2 ())) = 3%nat)
      by (vm_compute; reflexivity).
    destruct (@solve one_slot _ keep_order 2 ()) as [[found st]| |] eqn:E;
      [|discriminate Hrun..].
    injection Hrun as ->. exists st. split_and!; [reflexivity| |].
    + simpl in Hlen. by rewrite length_fmap in Hlen.
    + apply (Hsolve one_slot _ keep_order 2%nat () false st E).
  - intros st e. apply (Hraise reference _ fisher_yates 26%nat st e).
    exact reference_teachers_known.
Defined.

(** C9 as stated fails: binding a slot that is already bound raises
    nothing; the old binding is gone and the new one is in its place. *)
Lemma bind_on_bound_slot_replaces :
  monday_math !! monday_9 = Some ("Math", "Teacher_A", "Room_101")
  ∧ bind monday_9 ("Physics", "Teacher_B", "Room_102") monday_math
    = Return {[ monday_9 := ("Physics", "Teacher_B", "Room_102") ]}
  ∧ ¬ (∃ e, bind monday_9 ("Physics", "Teacher_B", "Room_102") monday_math
            = Raise e).
Proof.
  split_and!.
  - reflexivity.
  - unfold bind, monday_math. by rewrite insert_singleton_eq.
  - by intros [e He].
Qed.

(** ** Completeness of an assignment *)

(** C4, as the code has it: [is_complete] is true exactly when every
    subject's count has reached its requirement (the test is [<], so a
    count above the requirement passes too); on an assignment where no
    count exceeds its requirement this is the same as every count being
    equal to its requirement.  Free slots play no part: the catalogue of
    [__init__] has a complete assignment with slots left unassigned. *)
Theorem is_complete_iff_reached self a :
  (is_complete self a = true
   ↔ ∀ subject required, (subject, required) ∈ subject_periods self →
       required ≤ get_subject_count a subject)
  ∧ (within_quota self a →
     (is_complete self a = true
      ↔ ∀ subject required, (subject, required) ∈ subject_periods self →
          get_subject_count a subject = required))
  ∧ (is_complete reference ten_periods = true
     ∧ get_unassigned_variables reference ten_periods ≠ []).
Proof.
  pose proof (is_complete_true self a) as Hiff.
  split_and!; [done| |by vm_compute|by vm_compute].
  intros Hq. rewrite Hiff. split; intros H s r Hin.
  - specialize (H _ _ Hin). specialize (Hq _ _ Hin). lia.
  - rewrite (H _ _ Hin). lia.
Qed.

Lemma is_complete_iff_reached_witness :
  is_complete reference ten_periods = true
  ↔ ∀ subject required, (subject, required) ∈ subject_periods reference →
      get_subject_count ten_periods subject = required.
Proof.
  apply (proj1 (proj2 (is_complete_iff_reached reference ten_periods))).
  apply within_quota_Forall. by_evaluation.
Defined.

(** C4 as stated fails: with four Math periods against a requirement of
    three, [is_complete] is true although a count differs from its
    requirement. *)
Lemma is_complete_above_requirement :
  ¬ (is_complete reference four_maths = true
     ↔ ∀ subject required, (subject, required) ∈ subject_periods reference →
         get_subject_count four_maths subject = required).
Proof.
  intros [Hexact _].
  assert (Hc : is_complete reference four_maths = true) by (by vm_compute).
  assert (Hin : ("Math", 3) ∈ subject_periods reference) by by_evaluation.
  specialize (Hexact Hc "Math" 3 Hin). clear Hc Hin.
  vm_compute in Hexact. discriminate Hexact.
Qed.

(** ** The search *)

(** C8: a call of [backtrack] that returns [False] leaves the assignment
    dict as it found it, and so does the loop over the candidate values
    once each recursive call does: every store of line 111 whose recursive
    call failed has been undone by the [del] of line 118. *)
Theorem backtrack_exhausted_restores self {rng} `{!RandomSource rng}
    fuel (st st' : State rng) :
  backtrack self fuel st = Return (false, st') →
  assignment st' = assignment st.
Proof. apply backtrack_frame. Qed.

Lemma backtrack_exhausted_restores_witness :
  ∃ st', @backtrack one_slot _ keep_order 2
           {| assignment := ∅; random := (); history := [∅] |} = Return (false, st')
       ∧ assignment st' = ∅
       ∧ map_to_list <$> history st'
         = [[]; [(monday_9, ("Math", "Teacher_A", "Room_101"))]; []].
Proof.
  assert (Hrun : found_of (@backtrack one_slot _ keep_order 2
                   {| assignment := ∅; random := (); history := [∅] |})
                 = Some false) by (vm_compute; reflexivity).
  assert (Hlog : log_of (@backtrack one_slot _ keep_order 2
                   {| assignment := ∅; random := (); history := [∅] |})
                 = [[]; [(monday_9, ("Math", "Teacher_A", "Room_101"))]; []])
    by (vm_compute; reflexivity).
  destruct (@backtrack one_slot _ keep_order 2
              {| assignment := ∅; random := (); history := [∅] |})
    as [[found st']| |] eqn:E; [|discriminate Hrun..].
  injection Hrun as ->. exists st'. split_and!; [reflexivity| |exact Hlog].
  apply (@backtrack_exhausted_restores one_slot _ keep_order 2
           {| assignment := ∅; random := (); history := [∅] |} st' E).
Defined.

(** C1: when [solve] returns [True] on a catalogue whose requirements form
    a dict of non-negative counts, every subject is bound to exactly as
    many slots as it requires, whatever the shuffles did. *)
Theorem solve_success_exact_quota self {rng} `{!RandomSource rng}
    fuel (g : rng) (st : State rng) :
  quotas_wf self →
  solve self fuel g = Return (true, st) →
  ∀ subject required, (subject, required) ∈ subject_periods self →
    get_subject_count (assignment st) subject = required.
Proof.
  intros Hwf Hrun.
  apply backtrack_post in Hrun as (Hok & _ & Hc); [|done|by apply consistent_empty].
  by apply consistent_complete_solution.
Qed.

Lemma solve_success_exact_quota_witness :
  ∃ st, @solve reference _ fisher_yates 26 [3; 1; 4; 1; 5; 9; 2; 6]%nat = Return (true, st)
      ∧ ∀ subject required, (subject, required) ∈ subject_periods reference →
          get_subject_count (assignment st) subject = required.
Proof.
  assert (Hrun : found_of (@solve reference _ fisher_yates 26
                             [3; 1; 4; 1; 5; 9; 2; 6]%nat) = Some true)
    by (vm_compute; reflexivity).
  destruct (@solve reference _ fisher_yates 26 [3; 1; 4; 1; 5; 9; 2; 6]%nat)
    as [[found st]| |] eqn:E; [|discriminate Hrun..].
  injection Hrun as ->. exists st. split; [reflexivity|].
  apply (@solve_success_exact_quota reference _ fisher_yates 26
           [3; 1; 4; 1; 5; 9; 2; 6]%nat st reference_quotas_wf E).
Defined.

(** C2: on a catalogue whose requirements form a dict of non-negative
    counts, every state of the assignment dict during a solve (the dict
    after the reset, after each store and after each [del], the last of
    which is the dict [solve] ends with) satisfies: each bound teacher can
    teach the bound subject; no two items of the dict have the same slot, so
    no teacher or classroom is used twice at a slot; and no subject is bound
    to more slots than it requires.  The last holds by construction: a
    value offered by [get_domain_values] always names a subject whose count
    is still below its requirement. *)
Theorem solve_keeps_invariants self {rng} `{!RandomSource rng}
    fuel (g : rng) found (st : State rng) :
  quotas_wf self →
  solve self fuel g = Return (found, st) →
  assignment st ∈ history st
  ∧ Forall (λ a : Assignment,
      (∀ slot subject teacher room,
         a !! slot = Some (subject, teacher, room) → capable self teacher subject)
      ∧ (∀ i j slot v v',
           map_to_list a !! i = Some (slot, v) →
           map_to_list a !! j = Some (slot, v') → i = j)
      ∧ (∀ subject required, (subject, required) ∈ subject_periods self →
           get_subject_count a subject ≤ required))
      (history st)
  ∧ (∀ a day time_slot values subject teacher room,
       get_domain_values self a day time_slot = Return values →
       (subject, teacher, room) ∈ values →
       ∃ required, (subject, required) ∈ subject_periods self
                   ∧ get_subject_count a subject < required).
Proof.
  intros Hwf Hrun.
  apply backtrack_post in Hrun as (_ & (new & Hh & Hnew & Hhd) & _);
    [|done|by apply consistent_empty].
  simpl in *. split_and!.
  - rewrite Hh. by apply head_Some_elem_of.
  - assert (Hall : Forall (consistent self) (history st)).
    { rewrite Hh. apply Forall_app. split; [done|].
      by apply Forall_singleton, consistent_empty. }
    eapply Forall_impl; [exact Hall|].
    intros a [Hplaced Hq]. split_and!; [| |done].
    + intros slot s t r Hb. by destruct (Hplaced _ _ Hb) as (_ & _ & _ & ?).
    + intros i j slot v v' Hi Hj.
      apply (NoDup_lookup _ i j slot (NoDup_fst_map_to_list a)).
      * by rewrite list_lookup_fmap, Hi.
      * by rewrite list_lookup_fmap, Hj.
  - intros a day ts values s t r Hvals Hin.
    apply get_domain_values_sound in Hvals. rewrite Forall_forall in Hvals.
    by destruct (Hvals _ Hin) as [? _].
Qed.

Lemma solve_keeps_invariants_witness :
  ∃ st, @solve reference _ fisher_yates 26 [2; 7; 1; 8; 2; 8]%nat = Return (true, st)
      ∧ assignment st ∈ history st
      ∧ Forall (λ a : Assignment,
          ∀ subject required, (subject, required) ∈ subject_periods reference →
            get_subject_count a subject ≤ required) (history st).
Proof.
  assert (Hrun : found_of (@solve reference _ fisher_yates 26 [2; 7; 1; 8; 2; 8]%nat)
                 = Some true) by (vm_compute; reflexivity).
  destruct (@solve reference _ fisher_yates 26 [2; 7; 1; 8; 2; 8]%nat)
    as [[found st]| |] eqn:E; [|discriminate Hrun..].
  injection Hrun as ->. exists st. split; [reflexivity|].
  destruct (@solve_keeps_invariants reference _ fisher_yates 26 [2; 7; 1; 8; 2; 8]%nat
              true st reference_quotas_wf E) as (Hin & Hall & _).
  split; [exact Hin|].
  eapply Forall_impl; [exact Hall|]. intros a (_ & _ & Hq). exact Hq.
Defined.

(** C3: when every teacher of the catalogue is a key of the capability
    dict, [backtrack] returns [True] or [False] from every state as soon as
    the recursion depth allowed exceeds the number of unassigned slots, and
    more depth does not change the result; in particular [solve] returns.
    The recursive call is made after binding the first unassigned slot,
    which leaves strictly fewer unassigned slots. *)
Theorem backtrack_terminates self {rng} `{!RandomSource rng} :
  teachers_known self →
  (∀ fuel (st : State rng),
     (length (get_unassigned_variables self (assignment st)) < fuel)%nat →
     ∃ found st', backtrack self fuel st = Return (found, st')
       ∧ ∀ fuel', (fuel ≤ fuel')%nat → backtrack self fuel' st = Return (found, st'))
  ∧ (∀ fuel (g : rng), (length (all_slots self) < fuel)%nat →
       ∃ found st, solve self fuel g = Return (found, st))
  ∧ (∀ a slot rest value,
       get_unassigned_variables self a = slot :: rest →
       (length (get_unassigned_variables self (<[slot := value]> a))
        < length (get_unassigned_variables self a))%nat).
Proof.
  intros Hknown. split_and!.
  - intros fuel st Hfuel.
    destruct (backtrack_returns self fuel Hknown st Hfuel) as (found & st' & Hrun).
    exists found, st'. split; [done|]. intros fuel' Hle. by eapply backtrack_mono.
  - intros fuel g Hfuel. apply backtrack_returns; [done|]. simpl.
    pose proof (get_unassigned_variables_le self ∅). lia.
  - apply get_unassigned_variables_shrinks.
Qed.

Lemma backtrack_terminates_witness :
  ∃ found st, @solve history_30 _ fisher_yates 26 [1; 6; 1; 8]%nat = Return (found, st).
Proof.
  apply (proj1 (proj2 (@backtrack_terminates history_30 _ fisher_yates
                         reference_teachers_known)) 26%nat [1; 6; 1; 8]%nat).
  vm_compute. lia.
Defined.

(** C7: on a catalogue whose requirements form a dict of non-negative
    counts and whose teachers are all keys of the capability dict, if no
    timetable exists then [solve] returns [False], for every generator and
    every seed.  No timetable exists when the required periods add up to
    more than the number of slots (the catalogue with History at 30 needs 39
    of 25), nor when a subject requires a period and no teacher of the
    catalogue can teach it. *)
Theorem infeasible_exhausted self :
  quotas_wf self → teachers_known self →
  (infeasible self →
   ∀ rng (R : RandomSource rng) fuel (g : rng),
     (length (all_slots self) < fuel)%nat →
     ∃ st, solve self fuel g = Return (false, st))
  ∧ (Z.of_nat (length (all_slots self)) < total_required self → infeasible self)
  ∧ (∀ subject required,
       (subject, required) ∈ subject_periods self → 0 < required →
       (∀ teacher, teacher ∈ teachers self → ¬ capable self teacher subject) →
       infeasible self).
Proof.
  intros Hwf Hknown. split_and!.
  - intros Hinf rng R fuel g Hfuel.
    destruct (backtrack_returns self fuel Hknown
                {| assignment := ∅; random := g; history := [∅] |})
      as (found & st & Hrun).
    { simpl. pose proof (get_unassigned_variables_le self ∅). lia. }
    destruct found; [|by exists st]. exfalso.
    apply backtrack_post in Hrun as (Hok & _ & Hc); [|done|by apply consistent_empty].
    by apply (Hinf (assignment st)), consistent_complete_solution.
  - apply over_capacity_infeasible, Hwf.
  - apply nobody_capable_infeasible.
Qed.

Lemma infeasible_exhausted_witness :
  (∃ st, @solve history_30 _ fisher_yates 26 [3; 1; 4]%nat = Return (false, st))
  ∧ (∃ st, @solve no_latin_teacher _ keep_order 26 () = Return (false, st)).
Proof.
  split.
  - destruct (infeasible_exhausted history_30 history_30_quotas_wf
                reference_teachers_known) as (Hex & Hover & _).
    apply Hex; [apply Hover; vm_compute; reflexivity|vm_compute; lia].
  - destruct (infeasible_exhausted no_latin_teacher no_latin_teacher_quotas_wf
                reference_teachers_known) as (Hex & _ & Hnone).
    apply Hex; [|vm_compute; lia].
    apply (Hnone "Latin" 1); [by_evaluation|lia|].
    intros teacher Hin (caps & Hcaps & Hlatin).
    assert (Hall : Forall (λ t, ∀ caps, teacher_subjects no_latin_teacher !! t = Some caps
                                        → "Latin" ∉ caps) (teachers no_latin_teacher)).
    { repeat constructor; intros ? [= <-]; by_evaluation. }
    rewrite Forall_forall in Hall. by apply (Hall _ Hin caps).
Defined.


(** * Further properties *)

(** ** Any invariant of the candidate step is an invariant of the search *)

Section SearchInvariants.
Context (self : TimetableCSP) {rng : Type} `{!RandomSource rng}.
Implicit Types (st : State rng) (rec : State rng → outcome (bool * State rng)).
Context (I : Assignment → Prop).

Lemma try_values_preserves rec slot :
  (∀ st st', rec st = Return (false, st') → assignment st' = assignment st) →
  (∀ st r, I (assignment st) → Forall I (history st) → rec st = Return r →
           I (assignment r.2) ∧ Forall I (history r.2)) →
  ∀ values st r,
    assignment st !! slot = None →
    I (assignment st) → Forall I (history st) →
    Forall (λ v, I (<[slot := v]> (assignment st))) values →
    try_values rec slot values st = Return r →
    I (assignment r.2) ∧ Forall I (history r.2).
Proof.
  intros Hframe Hrec.
  induction values as [|v values IH]; intros st r Hfree Ha Hh Hvals.
  - simpl. by intros [= <-].
  - intros Hrun. apply try_values_cons in Hrun
      as (st1 & found & st2 & H1 & H2 & Hrun).
    apply store_Return in H1 as [H1 Hh1].
    apply Forall_cons in Hvals as [Hv Hvals].
    pose proof (Hrec _ _ ltac:(by rewrite H1)
                  ltac:(rewrite Hh1; apply Forall_cons; by rewrite H1) H2)
      as [Ha2 Hh2].
    simpl in *. destruct found; [by injection Hrun as <-|].
    apply Hframe in H2.
    apply bind_Return in Hrun as (st3 & H3 & Hrun).
    apply remove_Return in H3 as [H3 Hh3].
    rewrite H2, H1, delete_insert_id in H3 by done.
    apply IH in Hrun; [done|by rewrite H3..| |by rewrite H3].
    rewrite Hh3, H3. by apply Forall_cons.
Qed.

Lemma backtrack_preserves :
  (∀ a day time_slot rest values v,
     I a → is_complete self a = false →
     get_unassigned_variables self a = (day, time_slot) :: rest →
     get_domain_values self a day time_slot = Return values → v ∈ values →
     I (<[(day, time_slot) := v]> a)) →
  ∀ fuel st r,
    I (assignment st) → Forall I (history st) →
    backtrack self fuel st = Return r →
    I (assignment r.2) ∧ Forall I (history r.2).
Proof.
  intros Hstep. induction fuel as [|fuel IH]; intros st r Ha Hh; simpl; [done|].
  destruct (is_complete self (assignment st)) eqn:Hc; [by intros [= <-]|].
  destruct (get_unassigned_variables self (assignment st)) as [|[day ts] rest] eqn:Hu;
    [by intros [= <-]|].
  intros Hrun. apply bind_Return in Hrun as (values & Hvals & Hrun).
  pose proof (shuffle_perm (random st) values) as Hperm.
  destruct (shuffle (random st) values) as [values' g]. simpl in Hperm.
  destruct (first_unassigned _ _ _ _ Hu) as [Hslot Hfree].
  eapply (try_values_preserves _ _ (backtrack_frame self fuel) IH) in Hrun;
    [done|done|done|done|]. simpl.
  apply Forall_forall. intros v Hv. eapply Hstep; try done. by rewrite <- Hperm.
Qed.
End SearchInvariants.

(** ** When the search succeeds *)

Lemma needed_subjects_nil self a :
  needed_subjects self a = [] ↔ is_complete self a = true.
Proof.
  rewrite is_complete_true. split.
  - intros Hnil s r Hin. destruct (Z.le_gt_cases r (get_subject_count a s)); [done|].
    assert (s ∈ needed_subjects self a) as Hs
      by (apply elem_of_needed_subjects; eauto).
    rewrite Hnil in Hs. by apply elem_of_nil in Hs.
  - intros Hc. destruct (needed_subjects self a) as [|s l] eqn:E; [done|].
    assert (s ∈ needed_subjects self a) as Hs by (rewrite E; left).
    apply elem_of_needed_subjects in Hs as (r & Hin & Hlt).
    specialize (Hc _ _ Hin). lia.
Qed.

Lemma incomplete_needed self a :
  is_complete self a = false →
  ∃ s r, (s, r) ∈ subject_periods self ∧ get_subject_count a s < r.
Proof.
  intros Hc. destruct (needed_subjects self a) as [|s l] eqn:E.
  - apply needed_subjects_nil in E. congruence.
  - assert (s ∈ needed_subjects self a) as Hs by (rewrite E; left).
    apply elem_of_needed_subjects in Hs as (r & Hin & Hlt). eauto.
Qed.

Lemma sum_over_nonneg f ss : (∀ s, 0 ≤ f s) → 0 ≤ sum_over f ss.
Proof. intros Hf. induction ss as [|s ss IH]; simpl; [lia|]. specialize (Hf s). lia. Qed.

Lemma sum_over_indicator_ge (x : string) ss :
  x ∈ ss → 1 ≤ sum_over (λ s, if bool_decide (x = s) then 1 else 0) ss.
Proof.
  induction 1 as [x ss|x s ss _ IH]; simpl.
  - rewrite bool_decide_eq_true_2 by done.
    pose proof (sum_over_nonneg (λ s, if bool_decide (x = s) then 1 else 0) ss) as H.
    assert (∀ s, 0 ≤ (if bool_decide (x = s) then 1 else 0))
      by (intros; case_bool_decide; lia).
    specialize (H ltac:(done)). lia.
  - case_bool_decide; lia.
Qed.

Lemma sum_over_cons_item (kv : Slot * Activity) l ss :
  sum_over (λ s, Z.of_nat (length (filter
              (λ kv' : Slot * Activity, kv'.2.1.1 = s) (kv :: l)))) ss
  = sum_over (λ s, if bool_decide (kv.2.1.1 = s) then 1 else 0) ss
    + sum_over (λ s, Z.of_nat (length (filter
        (λ kv' : Slot * Activity, kv'.2.1.1 = s) l))) ss.
Proof.
  rewrite <- sum_over_add. induction ss as [|s ss IHs]; simpl; [lia|].
  rewrite IHs, filter_cons.
  case_decide; case_bool_decide; try done; simpl length; lia.
Qed.

Lemma length_le_counts (l : list (Slot * Activity)) ss :
  (∀ kv, kv ∈ l → kv.2.1.1 ∈ ss) →
  Z.of_nat (length l)
  ≤ sum_over (λ s, Z.of_nat (length (filter (λ kv : Slot * Activity, kv.2.1.1 = s) l))) ss.
Proof.
  induction l as [|kv l IH]; intros Hin.
  - simpl. apply sum_over_nonneg. lia.
  - rewrite sum_over_cons_item.
    pose proof (sum_over_indicator_ge kv.2.1.1 ss (Hin _ (list_elem_of_here _ _))).
    assert (Z.of_nat (length l) ≤ sum_over (λ s, Z.of_nat (length (filter
              (λ kv' : Slot * Activity, kv'.2.1.1 = s) l))) ss).
    { apply IH. intros ??. apply Hin. by right. }
    simpl length. lia.
Qed.

Lemma sum_over_get_subject_count a ss :
  sum_over (get_subject_count a) ss
  = sum_over (λ s, Z.of_nat (length (filter
      (λ kv : Slot * Activity, kv.2.1.1 = s) (map_to_list a)))) ss.
Proof.
  induction ss as [|s ss IH]; simpl; [done|].
  rewrite IH, get_subject_count_length. done.
Qed.

Lemma size_le_counts self a :
  subjects_listed self a →
  Z.of_nat (size a) ≤ sum_over (get_subject_count a) (subject_periods self).*1.
Proof.
  intros Hlisted. rewrite sum_over_get_subject_count, <- length_map_to_list.
  apply length_le_counts. intros [slot v] Hin.
  apply elem_of_map_to_list in Hin. by apply (Hlisted slot).
Qed.

Lemma counts_le_size self a :
  NoDup (subject_periods self).*1 →
  sum_over (get_subject_count a) (subject_periods self).*1 ≤ Z.of_nat (size a).
Proof.
  intros Hnd. rewrite sum_over_get_subject_count, <- length_map_to_list.
  by apply sum_over_counts.
Qed.

Lemma counts_lt_required (f : string → Z) (l : list (string * Z)) s0 r0 :
  (∀ s r, (s, r) ∈ l → f s ≤ r) →
  (s0, r0) ∈ l → f s0 < r0 →
  sum_over f l.*1 < foldr (λ sr acc, sr.2 + acc) 0 l.
Proof.
  unfold sum_over. intros Hle Hin Hlt.
  induction l as [|[s r] l IH]; [by apply elem_of_nil in Hin|]. csimpl.
  assert (Hrest : foldr (λ s acc, f s + acc) 0 l.*1 ≤ foldr (λ sr acc, sr.2 + acc) 0 l).
  { clear -Hle. induction l as [|[s' r'] l IHl]; csimpl; [lia|].
    pose proof (Hle s' r' ltac:(right; left)).
    assert (foldr (λ s acc, f s + acc) 0 l.*1 ≤ foldr (λ sr acc, sr.2 + acc) 0 l); [|lia].
    apply IHl. intros s1 r1 H1. apply Hle.
    apply elem_of_cons in H1 as [->|H1]; [left|right; by right]. }
  pose proof (Hle s r ltac:(left)) as Hhere.
  apply elem_of_cons in Hin as [[= -> ->]|Hin]; [lia|].
  assert (foldr (λ s acc, f s + acc) 0 l.*1 < foldr (λ sr acc, sr.2 + acc) 0 l); [|lia].
  apply IH; [|done]. intros ???. apply Hle. by right.
Qed.

Lemma room_left self a :
  within_quota self a → subjects_listed self a →
  is_complete self a = false →
  total_required self ≤ Z.of_nat (length (remove_dups (all_slots self))) →
  get_unassigned_variables self a ≠ [].
Proof.
  intros Hq Hlisted Hc Hfit Hnil.
  apply incomplete_needed in Hc as (s & r & Hin & Hlt).
  pose proof (counts_lt_required (get_subject_count a) _ s r Hq Hin Hlt) as Hsum.
  pose proof (size_le_counts _ _ Hlisted) as Hsize.
  assert ((length (remove_dups (all_slots self)) ≤ size a)%nat); [|unfold total_required in *; lia].
  rewrite <- (length_map_to_list a), <- (length_fmap fst (map_to_list a)).
  apply submseteq_length, NoDup_submseteq; [apply NoDup_remove_dups|].
  intros slot Hslot. rewrite elem_of_remove_dups in Hslot.
  apply elem_of_assigned_slots. destruct (a !! slot) eqn:E; [eauto|].
  assert (slot ∈ get_unassigned_variables self a) as Hun.
  { apply elem_of_get_unassigned_variables. by split. }
  rewrite Hnil in Hun. by apply elem_of_nil in Hun.
Qed.

Lemma free_slot_not_busy (a : Assignment) slot :
  a !! slot = None →
  (∀ teacher, ¬ teacher_busy a slot teacher)
  ∧ (∀ classroom, ¬ room_busy a slot classroom).
Proof.
  intros Hfree. split.
  - intros t (s & room & Hb). congruence.
  - intros c (s & teach & Hb). congruence.
Qed.

Lemma candidate_at_free_slot self a day time_slot subject required :
  schedulable self →
  a !! (day, time_slot) = None →
  (subject, required) ∈ subject_periods self →
  get_subject_count a subject < required →
  ∃ v, candidate self a (day, time_slot) v.
Proof.
  intros [Hsubj _] Hfree Hin Hlt.
  rewrite Forall_forall in Hsubj. destruct (Hsubj _ Hin) as [Hrooms Hteach].
  { simpl. pose proof (get_subject_count_nonneg a subject). lia. }
  apply Exists_exists in Hteach as (t & Ht & Hcap).
  destruct (classrooms self) as [|c cs] eqn:Ec; [done|].
  exists (subject, t, c). unfold candidate. simpl. split_and!; eauto.
  - rewrite Ec. left.
  - apply is_valid_assignment_true.
    destruct (free_slot_not_busy a (day, time_slot) Hfree) as [Hnt Hnr].
    split_and!; [done|apply Hnt|apply Hnr].
Qed.

Lemma subjects_listed_step self a day time_slot values v :
  subjects_listed self a →
  get_domain_values self a day time_slot = Return values → v ∈ values →
  subjects_listed self (<[(day, time_slot) := v]> a).
Proof.
  intros Hlisted Hvals Hv slot v'.
  apply get_domain_values_sound in Hvals. rewrite Forall_forall in Hvals.
  destruct (Hvals _ Hv) as ((r & Hr & _) & _).
  destruct (decide ((day, time_slot) = slot)) as [<-|Hne].
  - rewrite lookup_insert_eq. intros [= <-].
    apply list_elem_of_fmap. by exists (v.1.1, r).
  - rewrite lookup_insert_ne by done. apply Hlisted.
Qed.

Section Success.
Context (self : TimetableCSP) {rng : Type} `{!RandomSource rng}.

Lemma backtrack_succeeds fuel :
  quotas_wf self → teachers_known self → schedulable self →
  ∀ st : State rng,
    (length (get_unassigned_variables self (assignment st)) < fuel)%nat →
    consistent self (assignment st) → subjects_listed self (assignment st) →
    ∃ st', backtrack self fuel st = Return (true, st').
Proof.
  intros Hwf Hknown Hsched.
  induction fuel as [|fuel IH]; intros st Hfuel Hok Hlisted; [lia|]. simpl.
  destruct (is_complete self (assignment st)) eqn:Hc; [eauto|].
  pose proof (room_left self _ (proj2 Hok) Hlisted Hc (proj2 Hsched)) as Hroom.
  destruct (get_unassigned_variables self (assignment st)) as [|[day ts] rest] eqn:Hu;
    [done|].
  destruct (first_unassigned _ _ _ _ Hu) as [Hslot Hfree].
  destruct (incomplete_needed _ _ Hc) as (s & r & Hin & Hlt).
  destruct (candidate_at_free_slot self _ day ts s r Hsched Hfree Hin Hlt) as [v0 Hv0].
  destruct (get_domain_values_complete self _ day ts v0 Hknown Hv0)
    as (values & Hvals & Hin0).
  rewrite Hvals. simpl.
  pose proof (shuffle_perm (random st) values) as Hperm.
  destruct (shuffle (random st) values) as [values' g]. simpl in Hperm.
  destruct values' as [|v values'].
  { apply Permutation_nil_l in Hperm. subst values. by apply elem_of_nil in Hin0. }
  assert (Hv : v ∈ values) by (rewrite <- Hperm; left).
  pose proof (get_domain_values_sound _ _ _ _ _ Hvals) as Hsound.
  rewrite Forall_forall in Hsound.
  simpl.
  destruct (IH {| assignment := <[(day, ts) := v]> (assignment st); random := g;
                  history := <[(day, ts) := v]> (assignment st) :: history st |})
    as [st' Hrun]; simpl.
  - pose proof (get_unassigned_variables_shrinks self _ _ _ v Hu) as Hlt'.
    rewrite Hu in Hlt'. simpl in *. lia.
  - apply consistent_insert; auto.
  - by eapply subjects_listed_step.
  - rewrite Hrun. simpl. eauto.
Qed.
End Success.

Lemma counts_le_required (f : string → Z) (l : list (string * Z)) :
  (∀ s r, (s, r) ∈ l → f s ≤ r) →
  sum_over f l.*1 ≤ foldr (λ sr acc, sr.2 + acc) 0 l.
Proof.
  unfold sum_over. induction l as [|[s r] l IH]; intros Hle; csimpl; [lia|].
  pose proof (Hle s r ltac:(left)).
  assert (foldr (λ s acc, f s + acc) 0 l.*1 ≤ foldr (λ sr acc, sr.2 + acc) 0 l); [|lia].
  apply IH. intros ???. apply Hle. by right.
Qed.

Lemma solution_size self a :
  NoDup (subject_periods self).*1 → subjects_listed self a → solution self a →
  Z.of_nat (size a) = total_required self.
Proof.
  intros Hnd Hlisted [_ Hexact].
  pose proof (size_le_counts _ _ Hlisted).
  pose proof (counts_le_size self a Hnd).
  pose proof (counts_le_required (get_subject_count a) (subject_periods self)) as Hle.
  pose proof (required_le_counts (get_subject_count a) (subject_periods self)) as Hge.
  unfold total_required.
  assert (sum_over (get_subject_count a) (subject_periods self).*1
          = foldr (λ sr acc, sr.2 + acc) 0 (subject_periods self)); [|lia].
  apply Z.le_antisymm; [apply Hle|apply Hge]; intros s r Hin; rewrite (Hexact _ _ Hin); lia.
Qed.

Lemma solution_schedulable self a :
  NoDup (subject_periods self).*1 → solution self a → schedulable self.
Proof.
  intros Hnd [Hplaced Hexact]. split.
  - apply Forall_forall. intros [s r] Hin Hpos. simpl in *.
    destruct (get_subject_count_pos a s) as (slot & t & room & Hb).
    { rewrite (Hexact _ _ Hin). lia. }
    destruct (Hplaced _ _ Hb) as (_ & Ht & Hc & Hcap). simpl in *. split.
    + intros Hnil. rewrite Hnil in Hc. by apply elem_of_nil in Hc.
    + apply Exists_exists. eauto.
  - pose proof (counts_le_size self a Hnd) as Hsum.
    pose proof (required_le_counts (get_subject_count a) (subject_periods self)) as Hge.
    assert ((size a ≤ length (remove_dups (all_slots self)))%nat).
    { rewrite <- (length_map_to_list a), <- (length_fmap fst (map_to_list a)).
      apply submseteq_length, NoDup_submseteq; [apply NoDup_fst_map_to_list|].
      intros slot Hin. rewrite elem_of_remove_dups.
      apply elem_of_assigned_slots in Hin as [v Hv]. by destruct (Hplaced _ _ Hv). }
    unfold total_required.
    assert (foldr (λ sr acc, sr.2 + acc) 0 (subject_periods self)
            ≤ sum_over (get_subject_count a) (subject_periods self).*1); [|lia].
    apply Hge. intros s r Hin. rewrite (Hexact _ _ Hin). lia.
Qed.

(** X1: [solve] returns [True] exactly when the requirements fit.  On a
    catalogue whose requirements form a dict of non-negative counts and
    whose teachers are all keys of the capability dict, and with enough
    recursion depth, [solve] returns [True] if and only if every subject
    that requires a period has a classroom and a teacher of the catalogue
    who teaches it, and the required periods are no more than the distinct
    slots of the week; this does not depend on the generator. *)
Theorem solve_true_iff_schedulable self {rng} `{!RandomSource rng} fuel (g : rng) :
  quotas_wf self → teachers_known self →
  (length (all_slots self) < fuel)%nat →
  (∃ st, solve self fuel g = Return (true, st)) ↔ schedulable self.
Proof.
  intros Hwf Hknown Hfuel. split.
  - intros [st Hrun].
    apply backtrack_post in Hrun as (Hok & _ & Hc); [|done|by apply consistent_empty].
    eapply solution_schedulable; [apply Hwf|by apply consistent_complete_solution].
  - intros Hsched.
    apply backtrack_succeeds; [done|done|done| |by apply consistent_empty|]; simpl.
    + pose proof (get_unassigned_variables_le self ∅). lia.
    + intros slot v. by rewrite lookup_empty.
Qed.

Lemma reference_schedulable : schedulable reference.
Proof. split; by_evaluation. Qed.

Lemma solve_true_iff_schedulable_witness :
  (∃ st, @solve reference _ fisher_yates 26 [5; 3; 5; 8; 9; 7]%nat = Return (true, st))
  ∧ ¬ (∃ st, @solve history_30 _ fisher_yates 26 [5; 3; 5; 8; 9; 7]%nat
             = Return (true, st)).
Proof.
  split.
  - apply (@solve_true_iff_schedulable reference _ fisher_yates 26
             [5; 3; 5; 8; 9; 7]%nat reference_quotas_wf reference_teachers_known).
    + vm_compute. lia.
    + exact reference_schedulable.
  - intros Hrun.
    apply (@solve_true_iff_schedulable history_30 _ fisher_yates 26
             [5; 3; 5; 8; 9; 7]%nat history_30_quotas_wf reference_teachers_known)
      in Hrun as [_ Hfit]; [|vm_compute; lia].
    vm_compute in Hfit. by apply Hfit.
Defined.

(** ** Which slots a timetable fills *)

Lemma filter_head_split {A} (P : A → Prop) `{!∀ x, Decision (P x)} (l : list A) x rest :
  filter P l = x :: rest →
  ∃ pre post, l = pre ++ x :: post ∧ Forall (λ y, ¬ P y) pre ∧ P x.
Proof.
  induction l as [|y l IH]; [done|]. rewrite filter_cons.
  destruct (decide (P y)) as [Hy|Hy].
  - intros [= -> _]. by exists [], l.
  - intros Hf. destruct (IH Hf) as (pre & post & -> & Hpre & Hx).
    exists (y :: pre), post. split_and!; [done| |done]. by apply Forall_cons.
Qed.

Lemma bound_prefix_step self n a slot rest v :
  bound_prefix self n a →
  get_unassigned_variables self a = slot :: rest →
  ∃ m, bound_prefix self m (<[slot := v]> a).
Proof.
  intros Hpre Hu. destruct (first_unassigned _ _ _ _ Hu) as [_ Hfree].
  unfold get_unassigned_variables in Hu. simpl in Hu.
  apply filter_head_split in Hu as (pre & post & Hl & Hbound & _).
  assert (Hpre_bound : ∀ s, s ∈ pre → is_Some (a !! s)).
  { intros s Hs. rewrite Forall_forall in Hbound.
    apply elem_of_assigned_slots. by apply dec_stable, Hbound. }
  assert (Hn : (n ≤ length pre)%nat).
  { destruct (decide (n ≤ length pre)%nat) as [|Hgt]; [done|]. exfalso.
    assert (is_Some (a !! slot)) as [? ?]; [|congruence].
    apply Hpre. rewrite Hl. apply list_elem_of_lookup. exists (length pre).
    rewrite lookup_take_lt by lia. by rewrite list_lookup_middle. }
  exists (S (length pre)). intros s.
  rewrite Hl.
  replace (take (S (length pre)) (pre ++ slot :: post)) with (pre ++ [slot]).
  2:{ rewrite take_app_ge by lia. by replace (S (length pre) - length pre)%nat with 1%nat by lia. }
  rewrite elem_of_app, list_elem_of_singleton. split.
  - destruct (decide (slot = s)) as [->|Hne]; [by right|].
    rewrite lookup_insert_ne by done. intros Hs. left.
    apply Hpre in Hs. rewrite Hl, take_app_le in Hs by done.
    rewrite <- (take_drop n pre). apply elem_of_app. by left.
  - intros [Hs| ->]; [|rewrite lookup_insert_eq; eauto].
    destruct (decide (slot = s)) as [->|Hne]; [rewrite lookup_insert_eq; eauto|].
    rewrite lookup_insert_ne by done. by apply Hpre_bound.
Qed.

Lemma bound_prefix_size self n a :
  NoDup (all_slots self) → bound_prefix self n a → bound_prefix self (size a) a.
Proof.
  intros Hnd Hpre.
  assert (Hperm : (map_to_list a).*1 ≡ₚ take n (all_slots self)).
  { apply NoDup_Permutation; [apply NoDup_fst_map_to_list| |].
    { eapply sublist_NoDup; [exact Hnd|apply sublist_take]. }
    intros slot. rewrite elem_of_assigned_slots. apply Hpre. }
  apply Permutation_length in Hperm.
  rewrite length_fmap, length_map_to_list, length_take in Hperm.
  rewrite Hperm. intros slot. rewrite (Hpre slot).
  destruct (decide (n ≤ length (all_slots self))%nat).
  - by rewrite Nat.min_l by done.
  - rewrite Nat.min_r, !take_ge by lia. done.
Qed.

Section Filling.
Context (self : TimetableCSP) {rng : Type} `{!RandomSource rng}.

Lemma solve_subjects_listed fuel (g : rng) found st :
  solve self fuel g = Return (found, st) → subjects_listed self (assignment st).
Proof.
  intros Hrun.
  apply (backtrack_preserves self (subjects_listed self)) in Hrun as [H _]; [done| | |].
  - intros a day ts rest values v Ha _ _ Hvals Hv. by eapply subjects_listed_step.
  - simpl. intros slot v. by rewrite lookup_empty.
  - simpl. apply Forall_singleton. intros slot v. by rewrite lookup_empty.
Qed.

Lemma solve_bound_prefix fuel (g : rng) found st :
  solve self fuel g = Return (found, st) →
  (∃ n, bound_prefix self n (assignment st))
  ∧ Forall (λ a, ∃ n, bound_prefix self n a) (history st).
Proof.
  assert (H0 : ∃ n, bound_prefix self n ∅).
  { exists 0%nat. intros slot. rewrite lookup_empty, take_0. split.
    - by intros [? ?].
    - intros Hin. by apply elem_of_nil in Hin. }
  intros Hrun.
  apply (backtrack_preserves self (λ a, ∃ n, bound_prefix self n a)) in Hrun;
    [done| |done|by apply Forall_singleton].
  intros a day ts rest values v [n Hn] _ Hu _ _. by eapply bound_prefix_step.
Qed.

(** X2: a timetable that [solve] found has exactly as many bound slots as
    the requirements add up to (on a catalogue whose requirements form a
    dict of non-negative counts); every other slot is left free. *)
Theorem solve_success_size fuel (g : rng) (st : State rng) :
  quotas_wf self →
  solve self fuel g = Return (true, st) →
  Z.of_nat (size (assignment st)) = total_required self.
Proof.
  intros Hwf Hrun. pose proof (solve_subjects_listed _ _ _ _ Hrun) as Hlisted.
  apply backtrack_post in Hrun as (Hok & _ & Hc); [|done|by apply consistent_empty].
  apply solution_size; [apply Hwf|done|by apply consistent_complete_solution].
Qed.

(** X3: the search fills the week from the front.  In every state of the
    assignment dict during a solve, the bound slots are exactly the slots
    that occur among the first [n] of the week (day by day, period by
    period), for some [n]. *)
Theorem solve_fills_prefix fuel (g : rng) found (st : State rng) :
  solve self fuel g = Return (found, st) →
  (∃ n, bound_prefix self n (assignment st))
  ∧ Forall (λ a, ∃ n, bound_prefix self n a) (history st).
Proof. apply solve_bound_prefix. Qed.

(** X4: when the slots of the week are pairwise distinct and the
    requirements form a dict of non-negative counts, a timetable that
    [solve] found occupies exactly the first slots of the week, as many as
    the requirements add up to, whatever the shuffles did. *)
Theorem solve_success_first_slots fuel (g : rng) (st : State rng) :
  quotas_wf self → NoDup (all_slots self) →
  solve self fuel g = Return (true, st) →
  ∀ slot, is_Some (assignment st !! slot)
          ↔ slot ∈ take (Z.to_nat (total_required self)) (all_slots self).
Proof.
  intros Hwf Hnd Hrun.
  pose proof (solve_subjects_listed _ _ _ _ Hrun) as Hlisted.
  destruct (solve_bound_prefix _ _ _ _ Hrun) as [Hpre _].
  destruct Hpre as [n Hpre]. apply bound_prefix_size in Hpre; [|done].
  apply backtrack_post in Hrun as (Hok & _ & Hc); [|done|by apply consistent_empty].
  pose proof (solution_size self _ (proj1 Hwf) Hlisted
                (consistent_complete_solution _ _ Hok Hc)) as Hsize.
  rewrite <- Hsize, Nat2Z.id. apply Hpre.
Qed.
End Filling.

Lemma reference_slots_distinct : NoDup (all_slots reference).
Proof. by_evaluation. Qed.

Lemma solve_success_size_witness :
  ∃ st, @solve reference _ fisher_yates 26 [8; 2; 8; 1; 8]%nat = Return (true, st)
      ∧ size (assignment st) = 10%nat.
Proof.
  assert (Hrun : found_of (@solve reference _ fisher_yates 26 [8; 2; 8; 1; 8]%nat)
                 = Some true) by (vm_compute; reflexivity).
  destruct (@solve reference _ fisher_yates 26 [8; 2; 8; 1; 8]%nat)
    as [[found st]| |] eqn:E; [|discriminate Hrun..].
  injection Hrun as ->. exists st. split; [reflexivity|].
  pose proof (@solve_success_size reference _ fisher_yates 26 [8; 2; 8; 1; 8]%nat st
                reference_quotas_wf E) as Hsize.
  change (total_required reference) with 10 in Hsize. lia.
Defined.

Lemma solve_fills_prefix_witness :
  ∃ st, @solve one_slot _ keep_order 2 () = Return (false, st)
      ∧ Forall (λ a, ∃ n, bound_prefix one_slot n a) (history st).
Proof.
  assert (Hrun : found_of (@solve one_slot _ keep_order 2 ()) = Some false)
    by (vm_compute; reflexivity).
  destruct (@solve one_slot _ keep_order 2 ()) as [[found st]| |] eqn:E;
    [|discriminate Hrun..].
  injection Hrun as ->. exists st. split; [reflexivity|].
  apply (@solve_fills_prefix one_slot _ keep_order 2 () false st E).
Defined.

Lemma solve_success_first_slots_witness :
  ∃ st, @solve reference _ fisher_yates 26 [4; 6; 6; 9]%nat = Return (true, st)
      ∧ is_Some (assignment st !! ("Tuesday", "15:00-16:00"))
      ∧ assignment st !! ("Wednesday", "9:00-10:00") = None.
Proof.
  assert (Hrun : found_of (@solve reference _ fisher_yates 26 [4; 6; 6; 9]%nat)
                 = Some true) by (vm_compute; reflexivity).
  destruct (@solve reference _ fisher_yates 26 [4; 6; 6; 9]%nat)
    as [[found st]| |] eqn:E; [|discriminate Hrun..].
  injection Hrun as ->. exists st. split; [reflexivity|].
  pose proof (@solve_success_first_slots reference _ fisher_yates 26 [4; 6; 6; 9]%nat st
                reference_quotas_wf reference_slots_distinct E) as Hfirst.
  split.
  - apply Hfirst. by_evaluation.
  - apply eq_None_not_Some. rewrite Hfirst. by_evaluation.
Defined.

(** ** Errors and edge cases of the evaluator *)

(** X5: [is_valid_assignment] raises [KeyError] exactly when the teacher is
    not a key of the capability dict, whatever the other arguments and the
    assignment are. *)
Theorem is_valid_assignment_KeyError_iff
    self a day time_slot subject teacher classroom :
  is_valid_assignment self a day time_slot subject teacher classroom = Raise KeyError
  ↔ teacher_subjects self !! teacher = None.
Proof.
  destruct (teacher_subjects self !! teacher) as [caps|] eqn:Hcaps.
  - destruct (is_valid_assignment_known self a day time_slot subject teacher
                classroom caps Hcaps) as (b & -> & _). split; discriminate.
  - unfold is_valid_assignment, getitem. rewrite Hcaps. done.
Qed.

Lemma is_valid_assignment_at_free_slot
    self a day time_slot subject teacher classroom caps :
  a !! (day, time_slot) = None →
  teacher_subjects self !! teacher = Some caps →
  is_valid_assignment self a day time_slot subject teacher classroom
  = Return (bool_decide (subject ∈ caps)).
Proof.
  intros Hfree Hcaps.
  destruct (is_valid_assignment_known self a day time_slot subject teacher
              classroom caps Hcaps) as (b & -> & Hb).
  destruct (free_slot_not_busy a (day, time_slot) Hfree) as [Hnt Hnr].
  f_equal. case_bool_decide as Hs.
  - destruct b; [done|]. destruct Hb as [Hb _].
    destruct (Hb eq_refl) as [?|[?|?]]; [done|by apply Hnt in H|by apply Hnr in H].
  - destruct b; [|done]. destruct Hb as [_ Hb]. discriminate Hb. by left.
Qed.

(** X6: on a slot that holds no binding, [is_valid_assignment] is the
    capability test alone: for a teacher that is a key of the capability
    dict it returns whether the subject is among the teacher's subjects,
    whatever the classroom. *)
Theorem is_valid_assignment_free_slot
    self a day time_slot subject teacher classroom caps :
  a !! (day, time_slot) = None →
  teacher_subjects self !! teacher = Some caps →
  is_valid_assignment self a day time_slot subject teacher classroom
  = Return (bool_decide (subject ∈ caps)).
Proof. apply is_valid_assignment_at_free_slot. Qed.

Lemma is_valid_assignment_free_slot_witness :
  is_valid_assignment reference monday_math "Monday" "10:00-11:00"
    "History" "Teacher_A" "Room_101" = Return false
  ∧ is_valid_assignment reference monday_math "Monday" "10:00-11:00"
      "Math" "Teacher_A" "Room_101" = Return true.
Proof.
  split.
  - apply (is_valid_assignment_free_slot reference monday_math "Monday" "10:00-11:00"
             "History" "Teacher_A" "Room_101" ["Math"; "Physics"]); reflexivity.
  - apply (is_valid_assignment_free_slot reference monday_math "Monday" "10:00-11:00"
             "Math" "Teacher_A" "Room_101" ["Math"; "Physics"]); reflexivity.
Defined.

Lemma rooms_for_free_slot self a day time_slot subject teacher :
  a !! (day, time_slot) = None → capable self teacher subject →
  rooms_for self a day time_slot subject teacher
  = (λ classroom, (subject, teacher, classroom)) <$> classrooms self.
Proof.
  intros Hfree (caps & Hcaps & Hs). unfold rooms_for.
  induction (classrooms self) as [|c cs IH]; [done|]. csimpl.
  rewrite (is_valid_assignment_at_free_slot self a day time_slot subject teacher c caps)
    by done.
  rewrite bool_decide_eq_true_2 by done. simpl. by rewrite IH.
Qed.

Lemma teachers_for_free_slot self a day time_slot subject :
  a !! (day, time_slot) = None →
  teachers_for self a day time_slot subject
  = teacher ← filter (λ t, capable self t subject) (teachers self);
    classroom ← classrooms self; [(subject, teacher, classroom)].
Proof.
  intros Hfree. unfold teachers_for.
  induction (teachers self) as [|t ts IH]; [done|]. csimpl. rewrite filter_cons.
  destruct (decide (capable self t subject)) as [Hcap|Hno].
  - csimpl. rewrite <- IH. f_equal.
    destruct Hcap as (caps & Hcaps & Hs). rewrite Hcaps, bool_decide_eq_true_2 by done.
    rewrite rooms_for_free_slot by (done || by exists caps).
    clear. induction (classrooms self) as [|c cs IHc]; [done|]. csimpl. by rewrite IHc.
  - rewrite <- IH.
    destruct (teacher_subjects self !! t) as [caps|] eqn:Hcaps; [|done].
    case_bool_decide; [|done]. destruct Hno. by exists caps.
Qed.

Lemma get_domain_values_at_free_slot self a day time_slot :
  teachers_known self →
  a !! (day, time_slot) = None →
  get_domain_values self a day time_slot
  = Return (subject ← needed_subjects self a;
            teacher ← filter (λ t, capable self t subject) (teachers self);
            classroom ← classrooms self;
            [(subject, teacher, classroom)]).
Proof.
  intros Hknown Hfree. rewrite get_domain_values_pure by done. f_equal.
  induction (needed_subjects self a) as [|s l IH]; [done|]. csimpl.
  by rewrite IH, teachers_for_free_slot.
Qed.

(** X7: on a slot that holds no binding -- the only kind of slot the search
    asks about -- occupancy removes nothing: [get_domain_values] returns, in
    this order, every subject still below its requirement with every
    teacher of the catalogue who teaches it and every classroom of the
    catalogue. *)
Theorem get_domain_values_free_slot self a day time_slot :
  teachers_known self →
  a !! (day, time_slot) = None →
  get_domain_values self a day time_slot
  = Return (subject ← needed_subjects self a;
            teacher ← filter (λ t, capable self t subject) (teachers self);
            classroom ← classrooms self;
            [(subject, teacher, classroom)]).
Proof. apply get_domain_values_at_free_slot. Qed.

Lemma get_domain_values_free_slot_witness :
  get_domain_values one_slot ∅ "Monday" "9:00-10:00"
  = Return [("Math", "Teacher_A", "Room_101")].
Proof.
  rewrite (get_domain_values_free_slot one_slot ∅ "Monday" "9:00-10:00").
  - vm_compute. reflexivity.
  - unfold teachers_known. by_evaluation.
  - reflexivity.
Defined.

(** X8: once every requirement is reached, [get_domain_values] offers
    nothing: it returns the empty list, at any slot, and does not even look
    at the teachers. *)
Theorem get_domain_values_complete_nil self a day time_slot :
  is_complete self a = true →
  get_domain_values self a day time_slot = Return [].
Proof.
  intros Hc. apply needed_subjects_nil in Hc.
  unfold get_domain_values. by rewrite Hc.
Qed.

Lemma get_domain_values_complete_nil_witness :
  get_domain_values reference ten_periods "Wednesday" "9:00-10:00" = Return [].
Proof.
  apply (get_domain_values_complete_nil reference ten_periods "Wednesday" "9:00-10:00").
  vm_compute. reflexivity.
Defined.

Lemma getitem_Some d k v : d !! k = Some v → getitem d k = Return v.
Proof. unfold getitem. by intros ->. Qed.

Lemma getitem_None d k : d !! k = None → getitem d k = Raise KeyError.
Proof. unfold getitem. by intros ->. Qed.

Lemma teacher_loop_raises self a day time_slot subject ts :
  Exists (λ t, teacher_subjects self !! t = None) ts →
  ∀ acc,
    for_each (λ values teacher,
      caps ← getitem (teacher_subjects self) teacher;
      if bool_decide (subject ∈ caps) then
        for_each (λ values classroom,
          ok ← is_valid_assignment self a day time_slot subject teacher classroom;
          Return (if ok : bool then values ++ [(subject, teacher, classroom)]
                  else values))
          (classrooms self) values
      else Return values) ts acc
    = Raise KeyError.
Proof.
  induction ts as [|t ts IH]; intros Hex acc; [by apply Exists_nil in Hex|].
  simpl.
  destruct (teacher_subjects self !! t) as [caps|] eqn:Hcaps;
    [|by rewrite (getitem_None _ _ Hcaps)].
  rewrite (getitem_Some _ _ _ Hcaps). simpl.
  apply Exists_cons in Hex as [Hex|Hex]; [congruence|].
  case_bool_decide; simpl; [|by apply IH].
  rewrite (for_each_app (λ classroom,
             match is_valid_assignment self a day time_slot subject t classroom with
             | Return true => [(subject, t, classroom)]
             | _ => []
             end)).
  - simpl. by apply IH.
  - intros acc' c _.
    destruct (is_valid_assignment_known self a day time_slot subject t c caps Hcaps)
      as (b & -> & _).
    simpl. destruct b; [done|by rewrite app_nil_r].
Qed.

Lemma get_domain_values_raises_iff self a day time_slot :
  get_domain_values self a day time_slot = Raise KeyError
  ↔ needed_subjects self a ≠ [] ∧ ¬ teachers_known self.
Proof.
  split.
  - intros Hraise. split.
    + intros Hnil. unfold get_domain_values in Hraise. by rewrite Hnil in Hraise.
    + intros Hknown. by rewrite get_domain_values_pure in Hraise.
  - intros [Hneed Hunknown]. unfold get_domain_values.
    destruct (needed_subjects self a) as [|s l]; [done|]. simpl.
    rewrite teacher_loop_raises; [done|].
    apply not_Forall_Exists in Hunknown; [|apply _].
    eapply Exists_impl; [exact Hunknown|]. intros t Ht. simpl in Ht.
    by apply eq_None_not_Some.
Qed.

(** X9: [get_domain_values] raises [KeyError] exactly when some subject is
    still below its requirement and some teacher of the catalogue is not a
    key of the capability dict; in every other case it returns a list. *)
Theorem get_domain_values_KeyError_iff self a day time_slot :
  get_domain_values self a day time_slot = Raise KeyError
  ↔ needed_subjects self a ≠ [] ∧ ¬ teachers_known self.
Proof. apply get_domain_values_raises_iff. Qed.

Lemma get_domain_values_KeyError_iff_witness :
  get_domain_values unknown_teacher ∅ "Monday" "9:00-10:00" = Raise KeyError
  ∧ get_domain_values unknown_teacher
      {[ monday_9 := ("Math", "Teacher_A", "Room_101") ]} "Monday" "10:00-11:00"
    = Return [].
Proof.
  split.
  - apply (get_domain_values_KeyError_iff unknown_teacher ∅ "Monday" "9:00-10:00").
    split; [by vm_compute|]. unfold teachers_known. intros Hknown.
    apply Forall_cons in Hknown as [_ Hknown].
    apply Forall_cons in Hknown as [[caps Hcaps] _]. by vm_compute in Hcaps.
  - vm_compute. reflexivity.
Defined.

(** ** Errors and edge cases of the search *)

Section SearchErrors.
Context (self : TimetableCSP) {rng : Type} `{!RandomSource rng}.
Implicit Types (st : State rng) (rec : State rng → outcome (bool * State rng)).

(** X10: [solve] raises [KeyError] at its first step or never.  It raises
    exactly when some requirement is positive, the week has a slot, and some
    teacher of the catalogue is not a key of the capability dict. *)
Theorem solve_KeyError_iff fuel (g : rng) :
  solve self (S fuel) g = Raise KeyError
  ↔ is_complete self ∅ = false ∧ all_slots self ≠ [] ∧ ¬ teachers_known self.
Proof.
  unfold solve. split.
  - intros Hraise. split_and!.
    + simpl in Hraise. by destruct (is_complete self ∅).
    + simpl in Hraise. destruct (is_complete self ∅); [done|].
      intros Hnil. unfold get_unassigned_variables in Hraise. simpl in Hraise.
      by rewrite Hnil in Hraise.
    + intros Hknown. by eapply backtrack_no_raise.
  - intros (Hc & Hslots & Hunknown). simpl. rewrite Hc.
    destruct (get_unassigned_variables self ∅) as [|[day ts] rest] eqn:Hu.
    { destruct (all_slots self) as [|slot l] eqn:El; [done|].
      assert (slot ∈ get_unassigned_variables self ∅).
      { apply elem_of_get_unassigned_variables. rewrite El. split; [left|done]. }
      rewrite Hu in H. by apply elem_of_nil in H. }
    assert (Hraise : get_domain_values self ∅ day ts = Raise KeyError).
    { apply get_domain_values_raises_iff. split; [|done].
      intros Hnil. apply needed_subjects_nil in Hnil. congruence. }
    by rewrite Hraise.
Qed.
End SearchErrors.

Lemma solve_KeyError_iff_witness :
  @solve unknown_teacher _ keep_order 3 () = Raise KeyError.
Proof.
  apply (@solve_KeyError_iff unknown_teacher _ keep_order 2 ()).
  split_and!; [by vm_compute|by vm_compute|].
  unfold teachers_known. intros Hknown.
  apply Forall_cons in Hknown as [_ Hknown].
  apply Forall_cons in Hknown as [[caps Hcaps] _]. by vm_compute in Hcaps.
Defined.

(** ** Counting under stores and deletions *)

Lemma get_subject_count_delete (a : Assignment) slot (v : Activity) subject :
  a !! slot = Some v →
  get_subject_count (delete slot a) subject
  = get_subject_count a subject - (if bool_decide (v.1.1 = subject) then 1 else 0).
Proof.
  intros Hb.
  rewrite <- (insert_delete_id a slot v Hb) at 2.
  rewrite get_subject_count_insert by apply lookup_delete_eq. lia.
Qed.

(** X11: how [get_subject_count] follows the dict.  A store on a free slot
    adds one to the count of the stored subject and changes no other count;
    a [del] takes one from the count of the deleted subject; a store on a
    bound slot does both; and a count is never negative nor above the number
    of bound slots. *)
Theorem get_subject_count_updates (a : Assignment) slot (v : Activity) subject :
  (a !! slot = None →
   get_subject_count (<[slot := v]> a) subject
   = get_subject_count a subject + (if bool_decide (v.1.1 = subject) then 1 else 0))
  ∧ (∀ old, a !! slot = Some old →
       get_subject_count (delete slot a) subject
       = get_subject_count a subject
         - (if bool_decide (old.1.1 = subject) then 1 else 0))
  ∧ (∀ old, a !! slot = Some old →
       get_subject_count (<[slot := v]> a) subject
       = get_subject_count a subject
         - (if bool_decide (old.1.1 = subject) then 1 else 0)
         + (if bool_decide (v.1.1 = subject) then 1 else 0))
  ∧ 0 ≤ get_subject_count a subject ≤ Z.of_nat (size a).
Proof.
  split_and!.
  - apply get_subject_count_insert.
  - intros old. apply get_subject_count_delete.
  - intros old Hb. rewrite <- (insert_delete_eq a slot v).
    rewrite get_subject_count_insert by apply lookup_delete_eq.
    by rewrite (get_subject_count_delete a slot old).
  - apply get_subject_count_nonneg.
  - rewrite get_subject_count_length, <- length_map_to_list. unfold bound_to.
    apply inj_le, length_filter.
Qed.

Lemma get_subject_count_updates_witness :
  get_subject_count
    (<[("Monday", "10:00-11:00") := ("Math", "Teacher_D", "Room_102")]> monday_math)
    "Math" = 2
  ∧ get_subject_count (delete monday_9 monday_math) "Math" = 0
  ∧ get_subject_count
      (<[monday_9 := ("Physics", "Teacher_B", "Room_102")]> monday_math) "Math" = 0.
Proof.
  destruct (get_subject_count_updates monday_math ("Monday", "10:00-11:00")
              ("Math", "Teacher_D", "Room_102") "Math") as (Hins & _).
  destruct (get_subject_count_updates monday_math monday_9
              ("Physics", "Teacher_B", "Room_102") "Math") as (_ & Hdel & Hrep & _).
  split_and!.
  - rewrite Hins by reflexivity. vm_compute. reflexivity.
  - rewrite (Hdel ("Math", "Teacher_A", "Room_101")) by reflexivity.
    vm_compute. reflexivity.
  - rewrite (Hrep ("Math", "Teacher_A", "Room_101")) by reflexivity.
    vm_compute. reflexivity.
Defined.

(** ** The slots of the week *)

Lemma elem_of_all_slots self day time_slot :
  (day, time_slot) ∈ all_slots self ↔ day ∈ days self ∧ time_slot ∈ time_slots self.
Proof.
  unfold all_slots. rewrite list_elem_of_bind. split.
  - intros (d & Hin & Hd). apply list_elem_of_bind in Hin as (t & Hin & Ht).
    apply list_elem_of_singleton in Hin as [= -> ->]. done.
  - intros [Hd Ht]. exists day. split; [|done].
    apply list_elem_of_bind. exists time_slot. split; [|done]. left.
Qed.

Lemma length_all_slots self :
  length (all_slots self) = (length (days self) * length (time_slots self))%nat.
Proof.
  unfold all_slots.
  assert (Hrow : ∀ d : string, ∀ ts : list string,
            length (time ← ts; [(d, time)]) = length ts).
  { intros d ts. induction ts as [|t ts IHt]; [done|]. csimpl. simpl. by rewrite IHt. }
  induction (days self) as [|d ds IH]; [done|]. csimpl.
  rewrite length_app, IH, Hrow. simpl. lia.
Qed.

Lemma NoDup_all_slots self :
  NoDup (days self) → NoDup (time_slots self) → NoDup (all_slots self).
Proof.
  intros Hd Ht. unfold all_slots.
  induction Hd as [|d ds Hnotin _ IH]; csimpl; [constructor|].
  apply NoDup_app. split_and!.
  - clear -Ht. induction Ht as [|t ts Hnotin _ IHt]; csimpl; [constructor|].
    constructor; [|done]. intros Hin. apply Hnotin.
    apply list_elem_of_bind in Hin as (t' & Hin & Ht').
    by apply list_elem_of_singleton in Hin as [= ->].
  - intros [d' t'] Hin Hin'.
    apply list_elem_of_bind in Hin as (t1 & Hin & _).
    apply list_elem_of_singleton in Hin as [= -> ->].
    apply list_elem_of_bind in Hin' as (d2 & Hin' & Hd2).
    apply list_elem_of_bind in Hin' as (t2 & Hin' & _).
    apply list_elem_of_singleton in Hin' as [= -> ->]. done.
  - done.
Qed.

(** X12: [get_unassigned_variables] lists the week day by day and, within
    a day, period by period, leaving out the bound slots: on the empty
    assignment it returns all [len(days) * len(time_slots)] slots, a pair
    is among them exactly when its day and its period are in the catalogue,
    the result is always a sub-list of that full list, and when days and
    periods are pairwise distinct and only slots of the week are bound, the
    unassigned and the bound slots add up to the week. *)
Theorem get_unassigned_variables_week self a :
  (get_unassigned_variables self ∅ = all_slots self
   ∧ length (all_slots self) = (length (days self) * length (time_slots self))%nat
   ∧ ∀ day time_slot, (day, time_slot) ∈ all_slots self
                      ↔ day ∈ days self ∧ time_slot ∈ time_slots self)
  ∧ get_unassigned_variables self a `sublist_of` all_slots self
  ∧ (NoDup (days self) → NoDup (time_slots self) →
     (∀ slot, is_Some (a !! slot) → slot ∈ all_slots self) →
     (length (get_unassigned_variables self a) + size a
      = length (days self) * length (time_slots self))%nat).
Proof.
  split_and!.
  - unfold get_unassigned_variables. simpl. rewrite map_to_list_empty. simpl.
    induction (all_slots self) as [|x l IH]; [done|].
    rewrite filter_cons. destruct (decide (x ∉ [])) as [_|Hn].
    + by rewrite IH.
    + destruct Hn. apply not_elem_of_nil.
  - apply length_all_slots.
  - apply elem_of_all_slots.
  - apply sublist_filter.
  - intros Hd Ht Hdom. rewrite <- length_all_slots.
    pose proof (NoDup_all_slots self Hd Ht) as Hnd.
    unfold get_unassigned_variables. simpl.
    assert (Hkeys : (map_to_list a).*1
                    ≡ₚ filter (λ slot, slot ∈ (map_to_list a).*1) (all_slots self)).
    { apply NoDup_Permutation; [apply NoDup_fst_map_to_list|by apply NoDup_filter|].
      intros slot. rewrite list_elem_of_filter. split; [|tauto].
      intros Hin. split; [done|]. by apply Hdom, elem_of_assigned_slots. }
    rewrite <- length_map_to_list, <- (length_fmap fst (map_to_list a)), Hkeys.
    clear. induction (all_slots self) as [|x l IH]; [done|].
    rewrite !filter_cons.
    destruct (decide (x ∉ (map_to_list a).*1)) as [Hx|Hx];
      destruct (decide (x ∈ (map_to_list a).*1)) as [Hy|Hy]; simpl; try lia; try done.
Qed.

Lemma get_unassigned_variables_week_witness :
  (length (get_unassigned_variables reference ten_periods) + size ten_periods
   = 5 * 5)%nat.
Proof.
  apply (proj2 (proj2 (get_unassigned_variables_week reference ten_periods))).
  - by_evaluation.
  - by_evaluation.
  - intros slot Hs. apply elem_of_assigned_slots in Hs. revert slot Hs.
    apply Forall_forall. by_evaluation.
Defined.

(** ** Outcomes that do not depend on the shuffles *)

Lemma is_complete_empty self :
  is_complete self ∅ = true ↔ Forall (λ sr, sr.2 ≤ 0) (subject_periods self).
Proof.
  rewrite is_complete_true, Forall_forall. split.
  - intros H [s r] Hin. specialize (H s r Hin).
    by rewrite get_subject_count_empty in H.
  - intros H s r Hin. rewrite get_subject_count_empty. apply (H _ Hin).
Qed.

(** X13: a catalogue that requires nothing is solved at once.  The empty
    assignment is complete exactly when no requirement is positive, and then
    [solve] returns [True] with the assignment still empty, without drawing
    from the generator and without touching the dict again. *)
Theorem solve_nothing_required self {rng} `{!RandomSource rng} :
  (is_complete self ∅ = true ↔ Forall (λ sr, sr.2 ≤ 0) (subject_periods self))
  ∧ (Forall (λ sr, sr.2 ≤ 0) (subject_periods self) →
     ∀ fuel (g : rng),
       solve self (S fuel) g
       = Return (true, {| assignment := ∅; random := g; history := [∅] |})).
Proof.
  split; [apply is_complete_empty|].
  intros Hzero fuel g. apply is_complete_empty in Hzero.
  unfold solve. simpl. by rewrite Hzero.
Qed.

Lemma solve_nothing_required_witness :
  @solve {| days := ["Monday"]; time_slots := ["9:00-10:00"]; subjects := ["Math"];
            teachers := []; classrooms := []; teacher_subjects := ∅;
            subject_periods := [("Math", 0)] |} _ fisher_yates 1 [7; 7]%nat
  = Return (true, {| assignment := ∅; random := [7; 7]%nat; history := [∅] |}).
Proof.
  apply (proj2 (@solve_nothing_required _ _ fisher_yates)).
  repeat constructor. simpl. lia.
Defined.

(** X14: whether [solve] finds a timetable does not depend on the
    generator: on a catalogue whose requirements form a dict of non-negative
    counts and whose teachers are all keys of the capability dict, any two
    runs, with any two generators and seeds, return the same boolean.
    Trying again with other shuffles never turns a failure into a success. *)
Theorem solve_outcome_independent_of_shuffle self
    {rng1} (R1 : RandomSource rng1) {rng2} (R2 : RandomSource rng2)
    fuel1 fuel2 (g1 : rng1) (g2 : rng2) :
  quotas_wf self → teachers_known self →
  (length (all_slots self) < fuel1)%nat → (length (all_slots self) < fuel2)%nat →
  ∃ found st1 st2,
    @solve self rng1 R1 fuel1 g1 = Return (found, st1)
    ∧ @solve self rng2 R2 fuel2 g2 = Return (found, st2).
Proof.
  intros Hwf Hknown Hf1 Hf2.
  assert (Hsched : ∀ rng (R : RandomSource rng) fuel (g : rng) st,
            @solve self rng R fuel g = Return (true, st) → schedulable self).
  { intros rng R fuel g st Hrun.
    apply backtrack_post in Hrun as (Hok & _ & Hc); [|done|by apply consistent_empty].
    eapply solution_schedulable; [apply Hwf|by apply consistent_complete_solution]. }
  assert (Hsucc : ∀ rng (R : RandomSource rng) fuel (g : rng),
            (length (all_slots self) < fuel)%nat → schedulable self →
            ∃ st, @solve self rng R fuel g = Return (true, st)).
  { intros rng R fuel g Hfuel Hs.
    apply backtrack_succeeds; [done|done|done| |by apply consistent_empty|]; simpl.
    - pose proof (get_unassigned_variables_le self ∅). lia.
    - intros slot v. by rewrite lookup_empty. }
  assert (Hret : ∀ rng (R : RandomSource rng) fuel (g : rng),
            (length (all_slots self) < fuel)%nat →
            ∃ found st, @solve self rng R fuel g = Return (found, st)).
  { intros rng R fuel g Hfuel. apply backtrack_returns; [done|]. simpl.
    pose proof (get_unassigned_variables_le self ∅). lia. }
  destruct (Hret _ R1 fuel1 g1 Hf1) as (found1 & st1 & H1).
  destruct (Hret _ R2 fuel2 g2 Hf2) as (found2 & st2 & H2).
  destruct found1, found2; eauto.
  - destruct (Hsucc _ R2 fuel2 g2 Hf2 (Hsched _ _ _ _ _ H1)) as [st2' H2'].
    congruence.
  - destruct (Hsucc _ R1 fuel1 g1 Hf1 (Hsched _ _ _ _ _ H2)) as [st1' H1'].
    congruence.
Qed.

Lemma solve_outcome_independent_of_shuffle_witness :
  ∃ found st1 st2,
    @solve history_30 _ keep_order 26 () = Return (found, st1)
    ∧ @solve history_30 _ fisher_yates 30 [2; 7; 1; 8]%nat = Return (found, st2).
Proof.
  apply (solve_outcome_independent_of_shuffle history_30 keep_order fisher_yates
           26 30 () [2; 7; 1; 8]%nat history_30_quotas_wf reference_teachers_known).
  - vm_compute. lia.
  - vm_compute. lia.
Defined.

(** ** Reporting *)

(** X15: [print_timetable] writes the single line "No solution found!"
    exactly when the assignment dict is empty.  That is the case after a
    [solve] that returned [False], and also after a [solve] that returned
    [True] on a catalogue that requires nothing. *)
Theorem print_timetable_no_solution self {rng} `{!RandomSource rng} :
  (∀ a, print_timetable self a = "No solution found!" +:+ nl ↔ a = ∅)
  ∧ (∀ fuel (g : rng) st,
       solve self fuel g = Return (false, st) →
       print_timetable self (assignment st) = "No solution found!" +:+ nl)
  ∧ (Forall (λ sr, sr.2 ≤ 0) (subject_periods self) →
     ∀ fuel (g : rng), ∃ st,
       solve self (S fuel) g = Return (true, st)
       ∧ print_timetable self (assignment st) = "No solution found!" +:+ nl).
Proof.
  assert (Hempty : print_timetable self ∅ = "No solution found!" +:+ nl).
  { unfold print_timetable. by rewrite decide_True. }
  split_and!.
  - intros a. split; [|by intros ->].
    unfold print_timetable. destruct (decide (a = ∅)) as [->|Hne]; [done|].
    unfold timetable_and_schedule. intros Hout.
    apply (f_equal (String.get 0)) in Hout.
    match type of Hout with
    | ?l = _ => assert (Hhd : l = Some (Ascii.ascii_of_nat 10)) by reflexivity
    end.
    rewrite Hhd in Hout. discriminate Hout.
  - intros fuel g st Hrun. apply backtrack_frame in Hrun. simpl in Hrun.
    by rewrite Hrun.
  - intros Hzero fuel g. apply is_complete_empty in Hzero.
    exists {| assignment := ∅; random := g; history := [∅] |}. split; [|exact Hempty].
    unfold solve. simpl. by rewrite Hzero.
Qed.

Lemma solve_infeasible_false self {rng} `{!RandomSource rng} fuel (g : rng) :
  quotas_wf self → teachers_known self → infeasible self →
  (length (all_slots self) < fuel)%nat →
  ∃ st, solve self fuel g = Return (false, st).
Proof.
  intros Hwf Hknown Hinf Hfuel.
  destruct (backtrack_returns self fuel Hknown
              {| assignment := ∅; random := g; history := [∅] |})
    as (found & st & Hrun).
  { simpl. pose proof (get_unassigned_variables_le self ∅). lia. }
  destruct found; [|by exists st]. exfalso.
  apply backtrack_post in Hrun as (Hok & _ & Hc); [|done|by apply consistent_empty].
  by apply (Hinf (assignment st)), consistent_complete_solution.
Qed.

Lemma history_30_infeasible : infeasible history_30.
Proof.
  apply over_capacity_infeasible; [apply history_30_quotas_wf|].
  vm_compute. reflexivity.
Qed.

Lemma print_timetable_no_solution_witness :
  ∃ st, @solve history_30 _ fisher_yates 26 [4; 2]%nat = Return (false, st)
      ∧ print_timetable history_30 (assignment st) = "No solution found!" +:+ nl.
Proof.
  destruct (@solve_infeasible_false history_30 _ fisher_yates 26 [4; 2]%nat
              history_30_quotas_wf reference_teachers_known history_30_infeasible
              ltac:(vm_compute; lia)) as [st Hrun].
  exists st. split; [exact Hrun|].
  apply (proj1 (proj2 (@print_timetable_no_solution history_30 _ fisher_yates))
           26%nat [4; 2]%nat st Hrun).
Defined.

(** X16: after a [solve] that returned [True] on a catalogue whose
    requirements form a dict of non-negative counts, one of them positive,
    [print_timetable] writes the timetable and ends with one line per
    subject of the form [subject: n/n] followed by the check mark, [n] being
    the requirement: no subject is marked as off its requirement. *)
Theorem print_timetable_after_success self {rng} `{!RandomSource rng}
    fuel (g : rng) (st : State rng) :
  quotas_wf self → Exists (λ sr, 0 < sr.2) (subject_periods self) →
  solve self fuel g = Return (true, st) →
  print_timetable self (assignment st)
  = timetable_and_schedule self (assignment st)
    +:+ join_all ((λ '(subject, required),
                     subject +:+ ": " +:+ pretty required +:+ "/"
                     +:+ pretty required +:+ " " +:+ "✓" +:+ nl)
                  <$> subject_periods self).
Proof.
  intros Hwf Hpos Hrun.
  apply backtrack_post in Hrun as (Hok & _ & Hc); [|done|by apply consistent_empty].
  destruct (consistent_complete_solution _ _ Hok Hc) as [_ Hexact].
  simpl in Hexact. unfold print_timetable. rewrite decide_False.
  - f_equal. f_equal. apply list_fmap_ext. intros i [s r] Hi.
    apply list_elem_of_lookup_2 in Hi. unfold count_line.
    by rewrite (Hexact _ _ Hi), bool_decide_eq_true_2.
  - intros Hempty. apply Exists_exists in Hpos as ([s r] & Hin & Hr). simpl in Hr.
    specialize (Hexact _ _ Hin). rewrite Hempty, get_subject_count_empty in Hexact. lia.
Qed.

Lemma print_timetable_after_success_witness :
  ∃ st, @solve reference _ fisher_yates 26 [9; 9; 8]%nat = Return (true, st)
      ∧ print_timetable reference (assignment st)
        = timetable_and_schedule reference (assignment st)
          +:+ join_all ((λ '(subject, required),
                           subject +:+ ": " +:+ pretty required +:+ "/"
                           +:+ pretty required +:+ " " +:+ "✓" +:+ nl)
                        <$> subject_periods reference).
Proof.
  assert (Hrun : found_of (@solve reference _ fisher_yates 26 [9; 9; 8]%nat)
                 = Some true) by (vm_compute; reflexivity).
  destruct (@solve reference _ fisher_yates 26 [9; 9; 8]%nat)
    as [[found st]| |] eqn:E; [|discriminate Hrun..].
  injection Hrun as ->. exists st. split; [reflexivity|].
  apply (@print_timetable_after_success reference _ fisher_yates 26 [9; 9; 8]%nat st
           reference_quotas_wf).
  - apply Exists_cons_hd. simpl. lia.
  - exact E.
Defined.

Lemma distribution_loop (l : list (Slot * Activity)) (d : gmap string Z) s :
  foldl (λ (subjects_scheduled : gmap string Z) '(slot, (subject, teacher, room)),
           let d := match subjects_scheduled !! subject with
                    | Some _ => subjects_scheduled
                    | None => <[subject := 0]> subjects_scheduled
                    end in
           <[subject := default 0 (d !! subject) + 1]> d) d l !! s
  = if decide (filter (λ kv : Slot * Activity, kv.2.1.1 = s) l = [])
    then d !! s
    else Some (default 0 (d !! s)
               + Z.of_nat (length (filter (λ kv : Slot * Activity, kv.2.1.1 = s) l))).
Proof.
  revert d. induction l as [|[slot [[subject teacher] room]] l IH]; intros d.
  { rewrite filter_nil. by rewrite decide_True. }
  simpl foldl. rewrite IH, filter_cons. simpl.
  destruct (decide (subject = s)) as [->|Hne].
  - rewrite (decide_False (P := _ :: _ = [])) by done.
    destruct (d !! s) as [n|] eqn:Hs.
    + rewrite Hs, lookup_insert_eq. simpl.
      case_decide as Hnil; [rewrite Hnil; simpl; f_equal; lia|].
      simpl length. f_equal. lia.
    + rewrite !lookup_insert_eq. simpl.
      case_decide as Hnil; [rewrite Hnil; simpl; f_equal; lia|].
      simpl length. f_equal. lia.
  - destruct (d !! subject) eqn:Hsub.
    + rewrite Hsub. rewrite lookup_insert_ne by done. done.
    + rewrite lookup_insert_eq. simpl. rewrite !lookup_insert_ne by done. done.
Qed.

(** X17: the subject distribution that [main] builds from a timetable
    agrees with [get_subject_count]: a subject is a key of it exactly when
    some slot is bound to the subject, and its value is the number of such
    slots. *)
Theorem subject_distribution_lookup (a : Assignment) subject :
  subject_distribution a !! subject
  = if decide (get_subject_count a subject = 0) then None
    else Some (get_subject_count a subject).
Proof.
  unfold subject_distribution. rewrite distribution_loop, lookup_empty.
  rewrite get_subject_count_length. unfold bound_to. simpl.
  destruct (filter _ (map_to_list a)) as [|kv l]; simpl; [done|].
  f_equal.
Qed.

(** ** More on completeness, candidates and the cost of a successful search *)

(** X19: [is_complete] cannot be lost by adding: once every requirement is
    reached, a further store on a free slot, of any value, leaves the
    assignment complete. *)
Theorem is_complete_store (self : TimetableCSP) (a : Assignment)
    (slot : Slot) (v : Activity) :
  is_complete self a = true → a !! slot = None →
  is_complete self (<[slot := v]> a) = true.
Proof.
  rewrite !is_complete_true. intros Hc Hfree s r Hin.
  rewrite get_subject_count_insert by done. specialize (Hc _ _ Hin).
  case_bool_decide; lia.
Qed.

Lemma is_complete_store_witness :
  is_complete reference four_maths = true.
Proof.
  apply (is_complete_store reference ten_periods ("Wednesday", "9:00-10:00")
           ("Math", "Teacher_D", "Room_102")).
  - vm_compute. reflexivity.
  - vm_compute. reflexivity.
Defined.

Lemma length_bind_const {A B} (f : A → list B) (l : list A) n :
  (∀ x, x ∈ l → length (f x) = n) → length (l ≫= f) = (length l * n)%nat.
Proof.
  induction l as [|x l IH]; intros Hf; [done|]. csimpl.
  rewrite length_app, IH, Hf; [lia|left|]. intros ??. apply Hf. by right.
Qed.

(** X20: the number of values the search has to choose from at a free
    slot: summed over the subjects still below their requirement, the number
    of teachers of the catalogue who teach the subject times the number of
    classrooms. *)
Theorem get_domain_values_free_slot_length self a day time_slot :
  teachers_known self → a !! (day, time_slot) = None →
  ∃ values,
    get_domain_values self a day time_slot = Return values
    ∧ length values
      = foldr (λ subject acc,
                 (length (filter (λ t, capable self t subject) (teachers self))
                  * length (classrooms self) + acc)%nat)
              0%nat (needed_subjects self a).
Proof.
  intros Hknown Hfree. eexists. split; [by apply get_domain_values_at_free_slot|].
  induction (needed_subjects self a) as [|s l IH]; [done|]. csimpl.
  rewrite length_app, IH. f_equal.
  apply length_bind_const. intros t _.
  rewrite (length_bind_const _ _ 1%nat); [lia|done].
Qed.

Lemma get_domain_values_free_slot_length_witness :
  ∃ values, get_domain_values reference ∅ "Monday" "9:00-10:00" = Return values
          ∧ length values = 50%nat.
Proof.
  destruct (get_domain_values_free_slot_length reference ∅ "Monday" "9:00-10:00"
              reference_teachers_known (lookup_empty _)) as (values & Hvals & Hlen).
  exists values. split; [exact Hvals|]. rewrite Hlen. vm_compute. reflexivity.
Defined.

Section Straight.
Context (self : TimetableCSP) {rng : Type} `{!RandomSource rng}.

Lemma backtrack_straight fuel :
  quotas_wf self → teachers_known self → schedulable self →
  ∀ st : State rng,
    (length (get_unassigned_variables self (assignment st)) < fuel)%nat →
    consistent self (assignment st) → subjects_listed self (assignment st) →
    ∃ st', backtrack self fuel st = Return (true, st')
         ∧ (length (history st') + size (assignment st)
            = length (history st) + size (assignment st'))%nat.
Proof.
  intros Hwf Hknown Hsched.
  induction fuel as [|fuel IH]; intros st Hfuel Hok Hlisted; [lia|]. simpl.
  destruct (is_complete self (assignment st)) eqn:Hc; [by eauto|].
  pose proof (room_left self _ (proj2 Hok) Hlisted Hc (proj2 Hsched)) as Hroom.
  destruct (get_unassigned_variables self (assignment st)) as [|[day ts] rest] eqn:Hu;
    [done|].
  destruct (first_unassigned _ _ _ _ Hu) as [Hslot Hfree].
  destruct (incomplete_needed _ _ Hc) as (s & r & Hin & Hlt).
  destruct (candidate_at_free_slot self _ day ts s r Hsched Hfree Hin Hlt) as [v0 Hv0].
  destruct (get_domain_values_complete self _ day ts v0 Hknown Hv0)
    as (values & Hvals & Hin0).
  rewrite Hvals. simpl.
  pose proof (shuffle_perm (random st) values) as Hperm.
  destruct (shuffle (random st) values) as [values' g]. simpl in Hperm.
  destruct values' as [|v values'].
  { apply Permutation_nil_l in Hperm. subst values. by apply elem_of_nil in Hin0. }
  assert (Hv : v ∈ values) by (rewrite <- Hperm; left).
  pose proof (get_domain_values_sound _ _ _ _ _ Hvals) as Hsound.
  rewrite Forall_forall in Hsound.
  simpl.
  destruct (IH {| assignment := <[(day, ts) := v]> (assignment st); random := g;
                  history := <[(day, ts) := v]> (assignment st) :: history st |})
    as (st' & Hrun & Hlen); simpl.
  - pose proof (get_unassigned_variables_shrinks self _ _ _ v Hu) as Hlt'.
    rewrite Hu in Hlt'. simpl in *. lia.
  - apply consistent_insert; auto.
  - by eapply subjects_listed_step.
  - rewrite Hrun. simpl. exists st'. split; [done|].
    simpl in Hlen. rewrite map_size_insert_None in Hlen by done. lia.
Qed.

(** X21: a successful search never goes back.  On a catalogue whose
    requirements form a dict of non-negative counts and whose teachers are
    all keys of the capability dict, a [solve] that returns [True] has
    written to the dict once for the reset and once for each slot of the
    final timetable: no binding was ever removed, whatever order the
    shuffles produced. *)
Theorem solve_success_never_backtracks fuel (g : rng) (st : State rng) :
  quotas_wf self → teachers_known self →
  (length (all_slots self) < fuel)%nat →
  solve self fuel g = Return (true, st) →
  length (history st) = S (size (assignment st))
  ∧ Z.of_nat (length (history st)) = 1 + total_required self.
Proof.
  intros Hwf Hknown Hfuel Hrun.
  pose proof (solve_subjects_listed _ _ _ _ _ Hrun) as Hlisted.
  pose proof Hrun as Hpost.
  apply backtrack_post in Hpost as (Hok & _ & Hc); [|done|by apply consistent_empty].
  pose proof (consistent_complete_solution _ _ Hok Hc) as Hsol. simpl in *.
  pose proof (solution_schedulable self _ (proj1 Hwf) Hsol) as Hsched.
  destruct (backtrack_straight fuel Hwf Hknown Hsched
              {| assignment := ∅; random := g; history := [∅] |})
    as (st' & Hrun' & Hlen); simpl.
  - pose proof (get_unassigned_variables_le self ∅). lia.
  - by apply consistent_empty.
  - intros slot v. by rewrite lookup_empty.
  - unfold solve in Hrun. rewrite Hrun' in Hrun. injection Hrun as ->.
    simpl in Hlen. rewrite map_size_empty in Hlen.
    pose proof (solution_size self _ (proj1 Hwf) Hlisted Hsol). lia.
Qed.
End Straight.

Lemma solve_success_never_backtracks_witness :
  ∃ st, @solve reference _ fisher_yates 26 [6; 0; 2; 2; 1]%nat = Return (true, st)
      ∧ length (history st) = 11%nat.
Proof.
  assert (Hrun : found_of (@solve reference _ fisher_yates 26 [6; 0; 2; 2; 1]%nat)
                 = Some true) by (vm_compute; reflexivity).
  destruct (@solve reference _ fisher_yates 26 [6; 0; 2; 2; 1]%nat)
    as [[found st]| |] eqn:E; [|discriminate Hrun..].
  injection Hrun as ->. exists st. split; [reflexivity|].
  destruct (@solve_success_never_backtracks reference _ fisher_yates 26
              [6; 0; 2; 2; 1]%nat st reference_quotas_wf reference_teachers_known
              ltac:(vm_compute; lia) E) as [_ Hlen].
  change (total_required reference) with 10 in Hlen. lia.
Defined.
